(** * Parcels: the parquet trajectory writer [BaseParticleFile]

    A shallow embedding of [parcels/particlefile/baseparticlefile.py]
    and the properties of its constructor and of [write].

    Conventions of the embedding.
    - A numpy array is a [list]; an index array is a [list nat] (negative,
      wrapping indices are outside the modelled input type).
    - Column payloads (ids, state codes, flags and the user variables) are
      carried as [Z]; the writer never computes with the user variables.
    - Observation counters are [nat]: the int64 wrap-around would need
      2^63 emitted rows of one particle.
    - A Python exception ends the call; the mutations done before the
      raising statement stay in the returned writer, collection and
      file system, as they do in Python. *)

From Stdlib Require Import ZArith String Ascii DecimalString.
From Stdlib Require DecimalNat.
From stdpp Require Import gmap strings list fin_maps sorting.

Open Scope string_scope.
Open Scope Z_scope.

(** ** numpy and builtin helpers *)

(** [np.where(cond)[0]]: the positions at which [cond] holds, ascending. *)
Fixpoint np_where_from {A} (cond : A → bool) (k : nat) (a : list A) : list nat :=
  match a with
  | [] => []
  | x :: a' =>
      if cond x then k :: np_where_from cond (S k) a'
      else np_where_from cond (S k) a'
  end.

Definition np_where {A} (cond : A → bool) (a : list A) : list nat :=
  np_where_from cond 0 a.

(** [a[idx]] with an index array: [IndexError] when one index is out of
    range. *)
Definition take_idx {A} (a : list A) (idx : list nat) : option (list A) :=
  mapM (λ i, a !! i) idx.

(** [a[idx] = vals], element by element. *)
Fixpoint put_idx {A} (a : list A) (idx : list nat) (vals : list A) : list A :=
  match idx, vals with
  | i :: idx', v :: vals' => put_idx (<[i := v]> a) idx' vals'
  | _, _ => a
  end.

(** [a[idx] += 1]: numpy reads [a[idx]], adds one and stores the result
    back through the same index array, so an index that occurs twice is
    still incremented once. *)
Definition iadd1_idx (a : list nat) (idx : list nat) : list nat :=
  foldl (λ acc i, <[i := (default 0%nat (a !! i) + 1)%nat]> acc) a idx.

(** [enumerate(l)], counting from [k]. *)
Fixpoint enumerate_from {A} (k : nat) (l : list A) : list (nat * A) :=
  match l with
  | [] => []
  | x :: l' => (k, x) :: enumerate_from (S k) l'
  end.

Definition enumerate {A} (l : list A) : list (nat * A) := enumerate_from 0 l.

(** [d[k] = v] on an insertion-ordered dict: an existing key keeps its
    position, a new key goes last. *)
Fixpoint dict_set {V} (k : string) (v : V) (d : list (string * V)) : list (string * V) :=
  match d with
  | [] => [(k, v)]
  | (k', v') :: d' =>
      if String.eqb k' k then (k, v) :: d' else (k', v') :: dict_set k v d'
  end.

(** ['%03d' % n] *)
Definition fmt_03d (n : nat) : string :=
  let s := NilZero.string_of_uint (Nat.to_uint n) in
  String.concat "" (replicate (3 - String.length s) "0") ++ s.

(** [os.path.splitext(p)[1]] (posix): the suffix from the last dot of the
    last path component, leading dots of that component not counting. *)
Fixpoint rfind_from (c : ascii) (k : nat) (p : list ascii) (acc : option nat) : option nat :=
  match p with
  | [] => acc
  | x :: p' => rfind_from c (S k) p' (if Ascii.eqb x c then Some k else acc)
  end.

Definition rfind (c : ascii) (p : list ascii) : option nat := rfind_from c 0 p None.

Definition splitext_ext (p : string) : string :=
  let cs := list_ascii_of_string p in
  let filenameIndex := match rfind "/"%char cs with Some s => S s | None => 0%nat end in
  match rfind "."%char cs with
  | Some dotIndex =>
      if bool_decide (filenameIndex ≤ dotIndex)%nat then
        (* skip all leading dots *)
        if forallb (λ x, Ascii.eqb x "."%char)
                   (take (dotIndex - filenameIndex) (drop filenameIndex cs))
        then ""
        else string_of_list_ascii (drop dotIndex cs)
      else ""
  | None => ""
  end.

(** ** The particle schema and the fill-value table *)

(** The keys of [fmt_map] and [fill_value_map]. *)
Inductive DType :=
| float16 | float32 | float64
| bool_
| int8 | int16 | int32 | int64
| uint8 | uint16 | uint32 | uint64.

Inductive FillValue :=
| nan
| IntFill (v : Z).

(** [np.iinfo(t).max], for the integer types. *)
Definition iinfo_max (t : DType) : option Z :=
  match t with
  | int8 => Some (2 ^ 7 - 1)
  | int16 => Some (2 ^ 15 - 1)
  | int32 => Some (2 ^ 31 - 1)
  | int64 => Some (2 ^ 63 - 1)
  | uint8 => Some (2 ^ 8 - 1)
  | uint16 => Some (2 ^ 16 - 1)
  | uint32 => Some (2 ^ 32 - 1)
  | uint64 => Some (2 ^ 64 - 1)
  | _ => None
  end.

Definition iinfo_max_of (t : DType) : Z := default 0 (iinfo_max t).

Definition fmt_map (t : DType) : string :=
  match t with
  | float16 => "f2" | float32 => "f4" | float64 => "f8"
  | bool_ => "i1" | int8 => "i1" | int16 => "i2"
  | int32 => "i4" | int64 => "i8" | uint8 => "u1"
  | uint16 => "u2" | uint32 => "u4" | uint64 => "u8"
  end.

Definition fill_value_map (t : DType) : FillValue :=
  match t with
  | float16 => nan | float32 => nan | float64 => nan
  | bool_ => IntFill (iinfo_max_of int8) | int8 => IntFill (iinfo_max_of int8)
  | int16 => IntFill (iinfo_max_of int16) | int32 => IntFill (iinfo_max_of int32)
  | int64 => IntFill (iinfo_max_of int64) | uint8 => IntFill (iinfo_max_of uint8)
  | uint16 => IntFill (iinfo_max_of uint16) | uint32 => IntFill (iinfo_max_of uint32)
  | uint64 => IntFill (iinfo_max_of uint64)
  end.

Definition is_floating (t : DType) : bool :=
  match t with float16 | float32 | float64 => true | _ => false end.

(** The largest value an element of the type can hold: [np.iinfo] for the
    integer types and [True], that is 1, for [np.bool_]. *)
Definition max_representable (t : DType) : option Z :=
  match t with
  | bool_ => Some 1
  | _ => iinfo_max t
  end.

(** [Variable.to_write] is [False], [True] or ['once']. *)
Inductive ToWrite := tw_False | tw_True | tw_once.

Definition truthy (w : ToWrite) : bool :=
  match w with tw_False => false | _ => true end.

Definition is_once (w : ToWrite) : bool :=
  match w with tw_once => true | _ => false end.

(** A [Variable] of the particle type. *)
Record PVariable := { name : string; dtype : DType; to_write : ToWrite }.

(** ** The particle collection (structure of arrays) *)

Record Collection := {
  _data : gmap string (list Z);
  _ncount : nat;
  variables : list PVariable         (* [collection.ptype.variables] *)
}.

(** Modelled from the spec: the collection's column fetch
    [getvardata(var, indices)] (section 6, (ii)), one value per index;
    an unknown column or an index out of range raises. *)
Definition getvardata (c : Collection) (var : string) (indices : list nat) : option (list Z) :=
  col ← _data c !! var; take_idx col indices.

(** Modelled from the spec: [getvardata(var)] without indices, the whole
    column. *)
Definition getvardata_all (c : Collection) (var : string) : option (list Z) :=
  _data c !! var.

(** Modelled from the spec: [setvardata(var, indices, vals)] (section 6,
    (v)), the store into the column at the given indices. *)
Definition setvardata (c : Collection) (var : string) (indices : list nat) (vals : list Z)
  : Collection :=
  {| _data := alter (λ col, put_idx col indices vals) var (_data c);
     _ncount := _ncount c;
     variables := variables c |}.

(** Modelled from the spec: [setallvardata(var, val)], the store of one
    value into every entry of the column. *)
Definition setallvardata (c : Collection) (var : string) (val : Z) : Collection :=
  {| _data := alter (λ col, replicate (length col) val) var (_data c);
     _ncount := _ncount c;
     variables := variables c |}.

(** ** Output chunks and the file system *)

(** A [pandas.DataFrame] with the two-level row index
    [('trajectory', 'obs')]. *)
Record DataFrame := {
  df_index : list (Z * nat);
  df_columns : list (string * list Z)
}.

(** pandas' [_maybe_repeat(arr, index)]: an array of length one is
    repeated over an index of another length,
    [if 1 == len(arr) != len(index): arr = arr.repeat(len(index))]. *)
Definition maybe_repeat (arr : list Z) (n : nat) : list Z :=
  if bool_decide (length arr = 1 ∧ length arr ≠ n)%nat
  then arr ≫= replicate n
  else arr.

(** [pd.DataFrame(data=dfdict, index=index)] with array columns: each
    column goes through [_maybe_repeat], and pandas raises [ValueError]
    ("Length of values does not match length of index") unless it is
    then as long as the index. *)
Definition pd_DataFrame (data : list (string * list Z)) (index : list (Z * nat))
  : option DataFrame :=
  let columns := (λ col, (col.1, maybe_repeat col.2 (length index))) <$> data in
  if forallb (λ col, bool_decide (length col.2 = length index)) columns
  then Some {| df_index := index; df_columns := columns |}
  else None.

(** A node of the file system: a file holding one chunk, or a folder of
    its files. *)
Inductive Node :=
| File (df : DataFrame)
| Dir (children : list (string * DataFrame)).

(** The file system, keyed by the path of the output folder. *)
Abbreviation FileSystem := (gmap string Node).

(** [df.to_parquet(folder + '/' + file)]: the folder has to be there. *)
Definition to_parquet (fs : FileSystem) (folder file : string) (df : DataFrame)
  : option FileSystem :=
  match fs !! folder with
  | Some (Dir children) => Some (<[folder := Dir (dict_set file df children)]> fs)
  | _ => None
  end.

(** ** The writer *)

Record ParticleFile := {
  write_ondelete : bool;
  lasttime_written : option Z;
  maxids : nat;
  obs_written : list nat;
  pids_written : gmap Z nat;
  vars_to_write : list (string * DType);
  ptype : list PVariable;            (* [self.particleset.collection.ptype] *)
  fname : string;
  nfiles : option nat                (* not set by the constructor in MPI mode *)
}.

Definition set_lasttime_written (self : ParticleFile) (t : option Z) : ParticleFile :=
  {| write_ondelete := write_ondelete self; lasttime_written := t;
     maxids := maxids self; obs_written := obs_written self;
     pids_written := pids_written self; vars_to_write := vars_to_write self;
     ptype := ptype self; fname := fname self; nfiles := nfiles self |}.

Definition set_pids_written (self : ParticleFile) (pw : gmap Z nat) : ParticleFile :=
  {| write_ondelete := write_ondelete self; lasttime_written := lasttime_written self;
     maxids := maxids self; obs_written := obs_written self;
     pids_written := pw; vars_to_write := vars_to_write self;
     ptype := ptype self; fname := fname self; nfiles := nfiles self |}.

Definition set_maxids (self : ParticleFile) (m : nat) : ParticleFile :=
  {| write_ondelete := write_ondelete self; lasttime_written := lasttime_written self;
     maxids := m; obs_written := obs_written self;
     pids_written := pids_written self; vars_to_write := vars_to_write self;
     ptype := ptype self; fname := fname self; nfiles := nfiles self |}.

Definition set_obs_written (self : ParticleFile) (o : list nat) : ParticleFile :=
  {| write_ondelete := write_ondelete self; lasttime_written := lasttime_written self;
     maxids := maxids self; obs_written := o;
     pids_written := pids_written self; vars_to_write := vars_to_write self;
     ptype := ptype self; fname := fname self; nfiles := nfiles self |}.

Definition set_nfiles (self : ParticleFile) (n : option nat) : ParticleFile :=
  {| write_ondelete := write_ondelete self; lasttime_written := lasttime_written self;
     maxids := maxids self; obs_written := obs_written self;
     pids_written := pids_written self; vars_to_write := vars_to_write self;
     ptype := ptype self; fname := fname self; nfiles := n |}.

(** The exceptions a call can end with. *)
Inductive Exn :=
| RuntimeError        (* unsupported extension *)
| FetchError          (* KeyError or IndexError out of the collection *)
| UnboundLocalError   (* [indices_to_write] never assigned *)
| KeyError
| IndexError
| AttributeError      (* [self.nfiles] missing *)
| ValueError          (* pandas: column and index lengths differ *)
| OSError.            (* the output folder is not there *)

(** How a call of [write] ends. *)
Inductive Outcome :=
| Skipped                                   (* plain return, nothing emitted *)
| Warned (time : Z)                         (* [logger.warning], then return *)
| Written (path : string) (df : DataFrame)  (* one chunk persisted *)
| Raised (e : Exn).

Record Result := {
  r_self : ParticleFile;
  r_pset : Collection;
  r_fs : FileSystem;
  r_out : Outcome
}.

(** The argument [deleted_only]. *)
Inductive DeletedOnly :=
| d_False                  (* the default [False] *)
| d_scalar (v : Z)         (* another scalar; [True] is [d_scalar 1] *)
| d_ndarray (a : list nat) (* [np.ndarray] *)
| d_list (l : list nat).   (* [list] *)

Abbreviation d_True := (d_scalar 1).

Definition is_not_False (d : DeletedOnly) : bool :=
  match d with d_False => false | _ => true end.

Definition _convert_varout_name (var : string) : string :=
  if String.eqb var "depth" then "z"
  else if String.eqb var "id" then "trajectory"
  else var.

(** [self.particleset.collection.ptype[var].to_write == 'once'] *)
Definition write_once (self : ParticleFile) (var : string) : option bool :=
  v ← find (λ v, String.eqb (name v) var) (ptype self);
  Some (is_once (to_write v)).

(** Lines 248-250: the identities not yet registered, sorted, get the
    indices [maxids], [maxids + 1], ... *)
Definition to_add_of (pw : gmap Z nat) (pids : list Z) : list Z :=
  merge_sort Z.le (elements ((list_to_set pids : gset Z) ∖ dom pw)).

Definition register (pw : gmap Z nat) (maxids : nat) (to_add : list Z) : gmap Z nat :=
  foldl (λ m ip, <[ip.2 := (maxids + ip.1)%nat]> m) pw (enumerate to_add).

(** Lines 261-267: the loop that fills [dfdict]. *)
Fixpoint fill_dfdict (self : ParticleFile) (pset : Collection) (vars : list string)
    (indices_to_write indices_to_write_once : list nat)
    (dfdict : list (string * list Z)) : option (list (string * list Z)) :=
  match vars with
  | [] => Some dfdict
  | var :: vars' =>
      let varout := _convert_varout_name var in
      if String.eqb varout "trajectory" then
        fill_dfdict self pset vars' indices_to_write indices_to_write_once dfdict
      else
        once ← write_once self var;
        col ← getvardata pset var (if once : bool then indices_to_write_once
                                   else indices_to_write);
        fill_dfdict self pset vars' indices_to_write indices_to_write_once
                    (dict_set varout col dfdict)
  end.

(** Lines 269-273: the counter table, reset before the first chunk and
    grown with zeros up to [maxids]. *)
Definition grow_obs (nf : nat) (n_ids : nat) (maxids : nat) (obs : list nat) : list nat :=
  let obs1 := if (nf =? 0)%nat then replicate n_ids 0%nat else obs in
  if (length obs1 <? maxids)%nat
  then (obs1 ++ replicate (maxids - length obs1) 0%nat)%list
  else obs1.

Definition raise (self : ParticleFile) (pset : Collection) (fs : FileSystem) (e : Exn)
  : Result :=
  {| r_self := self; r_pset := pset; r_fs := fs; r_out := Raised e |}.

(** Lines 247-289: the body of [if len(indices_to_write) > 0]. *)
Definition emit (self : ParticleFile) (pset : Collection) (fs : FileSystem)
    (indices_to_write : list nat) : Result :=
  match getvardata pset "id" indices_to_write with
  | None => raise self pset fs FetchError
  | Some pids =>
  let to_add := to_add_of (pids_written self) pids in
  let self1 := set_pids_written self (register (pids_written self) (maxids self) to_add) in
  match mapM (λ p, pids_written self1 !! p) pids with
  | None => raise self1 pset fs KeyError
  | Some ids =>
  let self2 := set_maxids self1 (size (pids_written self1)) in
  match getvardata pset "once_written" indices_to_write with
  | None => raise self2 pset fs FetchError
  | Some flags =>
  let once_ids := np_where (λ v, (v =? 0)%Z) flags in
  match take_idx ids once_ids, take_idx indices_to_write once_ids with
  | Some ids_once, Some indices_to_write_once =>
  let pset1 := setvardata pset "once_written" indices_to_write_once
                          (replicate (length ids_once) 1) in
  match fill_dfdict self2 pset1 (vars_to_write self2).*1
                    indices_to_write indices_to_write_once [] with
  | None => raise self2 pset1 fs FetchError
  | Some dfdict =>
  match nfiles self2 with
  | None => raise self2 pset1 fs AttributeError
  | Some nf =>
  let self3 := set_obs_written self2
                 (grow_obs nf (length ids) (maxids self2) (obs_written self2)) in
  match take_idx (obs_written self3) ids with
  | None => raise self3 pset1 fs IndexError
  | Some obs =>
  let index := zip pids obs in
  match pd_DataFrame dfdict index with
  | None => raise self3 pset1 fs ValueError
  | Some df =>
  let file := "p" ++ fmt_03d nf ++ ".parquet" in
  let self4 := set_nfiles self3 (Some (S nf)) in
  match to_parquet fs (fname self) file df with
  | None => raise self4 pset1 fs OSError
  | Some fs' =>
  let self5 := set_obs_written self4 (iadd1_idx (obs_written self4) ids) in
  {| r_self := self5; r_pset := pset1; r_fs := fs';
     r_out := Written (fname self ++ "/" ++ file) df |}
  end end end end end
  | _, _ => raise self2 pset fs IndexError
  end end end end.

Section Write.

(** [OperationCode.Delete], of [parcels.tools.statuscodes]. *)
Variable OperationCode_Delete : Z.

(** The collection's static method [_to_write_particles(data, time)]: the
    indices of the particles due for output at [time]. *)
Variable _to_write_particles : gmap string (list Z) → Z → list nat.

(** Lines 232-241: the index set of a call with [deleted_only]. *)
Definition resolve_deleted (pset : Collection) (deleted_only : DeletedOnly)
  : Exn + list nat :=
  match deleted_only with
  | d_scalar v =>
      if (v =? 1)%Z then
        match getvardata_all pset "state" with
        | Some state => inr (np_where (λ s, (s =? OperationCode_Delete)%Z) state)
        | None => inl FetchError
        end
      else inl UnboundLocalError
  | d_ndarray a =>
      if forallb (λ x, (x <? 2)%nat) a
      then inr (np_where (λ x, negb (x =? 0)%nat) a)
      else inr a
  | d_list l => inr l
  | d_False => inl UnboundLocalError
  end.

(** The guard of line 227. *)
Definition gate (self : ParticleFile) (time : Z) (deleted_only : DeletedOnly) : bool :=
  bool_decide (lasttime_written self ≠ Some time)
  && (negb (write_ondelete self) || is_not_False deleted_only).

(** Line 246 and what follows. *)
Definition write_indices (self : ParticleFile) (pset : Collection) (fs : FileSystem)
    (indices_to_write : list nat) : Result :=
  if bool_decide (0 < length indices_to_write)%nat
  then emit self pset fs indices_to_write
  else {| r_self := self; r_pset := pset; r_fs := fs; r_out := Skipped |}.

Definition write (self : ParticleFile) (pset : Collection) (fs : FileSystem)
    (time : Z) (deleted_only : DeletedOnly) : Result :=
  if gate self time deleted_only then
    if (_ncount pset =? 0)%nat then
      {| r_self := self; r_pset := pset; r_fs := fs; r_out := Warned time |}
    else if is_not_False deleted_only then
      match resolve_deleted pset deleted_only with
      | inl e => raise self pset fs e
      | inr indices_to_write => write_indices self pset fs indices_to_write
      end
    else
      let indices_to_write := _to_write_particles (_data pset) time in
      write_indices (set_lasttime_written self (Some time)) pset fs indices_to_write
  else {| r_self := self; r_pset := pset; r_fs := fs; r_out := Skipped |}.

End Write.

(** ** The constructor *)

(** [f"{n:02d}"] *)
Definition fmt_02d (n : nat) : string :=
  let s := NilZero.string_of_uint (Nat.to_uint n) in
  String.concat "" (replicate (2 - String.length s) "0") ++ s.

Definition parquet_extension (extension : string) : bool :=
  bool_decide (extension ∈ [".parquet"; ".pqt"; ".parq"]).

(** Lines 82-84: [vars_to_write], name to dtype, of the variables marked
    to be written. *)
Fixpoint collect_vars_to_write (vars : list PVariable) (acc : list (string * DType))
  : list (string * DType) :=
  match vars with
  | [] => acc
  | var :: vars' =>
      collect_vars_to_write vars'
        (if truthy (to_write var) then dict_set (name var) (dtype var) acc else acc)
  end.

Record InitResult := {
  i_self : Exn + ParticleFile;
  i_pset : Collection;
  i_fs : FileSystem
}.

(** [BaseParticleFile.__init__].  [MPI] is [None] without mpi4py, else the
    rank and the size of [MPI.COMM_WORLD].  The file system maps the path
    of an output folder to what the folder holds; the folders above it,
    which [mkdir(parents=True)] creates where they are missing, are not
    represented. *)
Definition __init__ (MPI : option (nat * nat)) (fs : FileSystem)
    (name : string) (particleset : Collection) (write_ondelete : bool) : InitResult :=
  let vars_to_write := collect_vars_to_write (variables particleset) [] in
  let mpi_rank := match MPI with Some (rank, _) => rank | None => 0%nat end in
  (* Reset once-written flag of each particle *)
  let particleset' := setallvardata particleset "once_written" 0 in
  let extension := splitext_ext name in
  if parquet_extension extension then
    let self fname nfiles :=
      {| write_ondelete := write_ondelete; lasttime_written := None;
         maxids := 0; obs_written := []; pids_written := ∅;
         vars_to_write := vars_to_write; ptype := variables particleset;
         fname := fname; nfiles := nfiles |} in
    if match MPI with Some (_, size) => bool_decide (1 < size)%nat | None => false end then
      {| i_self := inr (self (name ++ "/proc" ++ fmt_02d mpi_rank ++ ".parquet") None);
         i_pset := particleset'; i_fs := fs |}
    else
      let parquet_folder := name in
      match fs !! parquet_folder with
      | Some (File _) =>
          (* [shutil.rmtree] of a plain file raises *)
          {| i_self := inl OSError; i_pset := particleset'; i_fs := fs |}
      | Some (Dir _) =>
          {| i_self := inr (self name (Some 0%nat)); i_pset := particleset';
             i_fs := <[parquet_folder := Dir []]> (delete parquet_folder fs) |}
      | None =>
          {| i_self := inr (self name (Some 0%nat)); i_pset := particleset';
             i_fs := <[parquet_folder := Dir []]> fs |}
      end
  else
    {| i_self := inl RuntimeError; i_pset := particleset'; i_fs := fs |}.

(** ** The attribute dictionary *)

Inductive AttrValue :=
| a_str (s : string)
| a_fill (v : FillValue).

Section Attributes.

(** The abstract method [_reserved_var_names]. *)
Variable _reserved_var_names : list string.

(** [self.time_origin.calendar] and [str(self.time_origin)]. *)
Variable calendar : option string.
Variable time_origin_str : string.

Fixpoint add_var_attrs (vars : list (string * DType))
    (attrs : list (string * list (string * AttrValue)))
  : list (string * list (string * AttrValue)) :=
  match vars with
  | [] => attrs
  | (vname, t) :: vars' =>
      add_var_attrs vars'
        (if bool_decide (vname ∈ _reserved_var_names) then attrs
         else dict_set vname [("_FillValue", a_fill (fill_value_map t));
                              ("long_name", a_str "");
                              ("standard_name", a_str vname);
                              ("units", a_str "unknown")] attrs)
  end.

Definition _create_variables_attribute_dict (self : ParticleFile)
  : list (string * list (string * AttrValue)) :=
  let time_attrs :=
    [("long_name", a_str ""); ("standard_name", a_str "time");
     ("units", a_str "seconds"); ("axis", a_str "T")] in
  let time_attrs :=
    match calendar with
    | Some cal =>
        dict_set "calendar"
          (a_str (if String.eqb cal "np_datetime64" then "standard" else cal))
          (dict_set "units" (a_str ("seconds since " ++ time_origin_str)) time_attrs)
    | None => time_attrs
    end in
  let attrs :=
    [("z", [("long_name", a_str ""); ("standard_name", a_str "depth");
            ("units", a_str "m"); ("positive", a_str "down")]);
     ("trajectory", [("long_name", a_str "Unique identifier for each particle");
                     ("cf_role", a_str "trajectory_id");
                     ("_FillValue", a_fill (fill_value_map int64))]);
     ("time", time_attrs);
     ("lon", [("long_name", a_str ""); ("standard_name", a_str "longitude");
              ("units", a_str "degrees_east"); ("axis", a_str "X")]);
     ("lat", [("long_name", a_str ""); ("standard_name", a_str "latitude");
              ("units", a_str "degrees_north"); ("axis", a_str "Y")])] in
  add_var_attrs (vars_to_write self) attrs.

End Attributes.

(** ** Runs: a sequence of calls of [write] *)

Record Call := {
  c_pset : Collection;      (* the collection as the simulation left it *)
  c_time : Z;
  c_deleted_only : DeletedOnly
}.

(** The chunk a call emitted, if any. *)
Definition chunk_of (o : Outcome) : list DataFrame :=
  match o with Written _ df => [df] | _ => [] end.

Section Runs.

Variable OperationCode_Delete : Z.
Variable _to_write_particles : gmap string (list Z) → Z → list nat.

(** The calls are made one after the other on the same writer and file
    system; the emitted chunks are collected in emission order. *)
Fixpoint run (self : ParticleFile) (fs : FileSystem) (calls : list Call)
  : ParticleFile * FileSystem * list DataFrame :=
  match calls with
  | [] => (self, fs, [])
  | c :: calls' =>
      let r := write OperationCode_Delete _to_write_particles
                     self (c_pset c) fs (c_time c) (c_deleted_only c) in
      let '(self', fs', chunks) := run (r_self r) (r_fs r) calls' in
      (self', fs', (chunk_of (r_out r) ++ chunks)%list)
  end.

(** The index set a call selects, whatever the guards say. *)
Definition selected_indices (c : Call) : option (list nat) :=
  if is_not_False (c_deleted_only c) then
    match resolve_deleted OperationCode_Delete (c_pset c) (c_deleted_only c) with
    | inr idx => Some idx
    | inl _ => None
    end
  else Some (_to_write_particles (_data (c_pset c)) (c_time c)).

(** The identities a call selects. *)
Definition selected_pids (c : Call) : option (list Z) :=
  idx ← selected_indices c; getvardata (c_pset c) "id" idx.

End Runs.

(** The observation indices emitted for identity [p], in emission order. *)
Definition obs_of (p : Z) (chunks : list DataFrame) : list nat :=
  chunks ≫= (λ df, (filter (λ row, row.1 = p) (df_index df)).*2).

(** The counter of identity [p]: zero until [p] is registered. *)
Definition counter (self : ParticleFile) (p : Z) : nat :=
  match pids_written self !! p with
  | Some i => default 0%nat (obs_written self !! i)
  | None => 0%nat
  end.

(** ** Invariants and stages of a call *)

(** The registry is a bijection between the registered identities and
    the local indices below [maxids], the number of registered identities. *)
Record registry_ok (pw : gmap Z nat) (maxids : nat) : Prop := {
  reg_size : maxids = size pw;
  reg_bound : ∀ p i, pw !! p = Some i → (i < maxids)%nat;
  reg_inj : ∀ p q i, pw !! p = Some i → pw !! q = Some i → p = q;
  reg_surj : ∀ i, (i < maxids)%nat → ∃ p, pw !! p = Some i
}.


(** The writer after the registration of the batch [pids] (line 252). *)
Definition registered (self : ParticleFile) (pids : list Z) : ParticleFile :=
  let pw := register (pids_written self) (maxids self)
                     (to_add_of (pids_written self) pids) in
  set_maxids (set_pids_written self pw) (size pw).

(** The writer after the counter table was reset or grown (line 273). *)
Definition grown (self : ParticleFile) (pids : list Z) (ids : list nat) (nf : nat)
  : ParticleFile :=
  let self2 := registered self pids in
  set_obs_written self2 (grow_obs nf (length ids) (maxids self2) (obs_written self2)).

(** The writer after the chunk was persisted and counted (line 289). *)
Definition counted (self : ParticleFile) (pids : list Z) (ids : list nat) (nf : nat)
  : ParticleFile :=
  let self4 := set_nfiles (grown self pids ids nf) (Some (S nf)) in
  set_obs_written self4 (iadd1_idx (obs_written self4) ids).

(** The ways through [emit]: where it raises, with the writer as it is
    at that statement, or the chunk it persists. *)
Inductive emit_path (self : ParticleFile) (pset : Collection) (fs : FileSystem)
    (idx : list nat) : Result → Prop :=
| emit_no_ids :
    getvardata pset "id" idx = None →
    emit_path self pset fs idx (raise self pset fs FetchError)
| emit_raise_registered pids ids pset' e :
    getvardata pset "id" idx = Some pids →
    mapM (λ p, pids_written (registered self pids) !! p) pids = Some ids →
    emit_path self pset fs idx (raise (registered self pids) pset' fs e)
| emit_raise_grown pids ids nf pset' e :
    getvardata pset "id" idx = Some pids →
    mapM (λ p, pids_written (registered self pids) !! p) pids = Some ids →
    nfiles self = Some nf →
    emit_path self pset fs idx (raise (grown self pids ids nf) pset' fs e)
| emit_raise_persist pids ids nf pset' e :
    getvardata pset "id" idx = Some pids →
    mapM (λ p, pids_written (registered self pids) !! p) pids = Some ids →
    nfiles self = Some nf →
    emit_path self pset fs idx
      (raise (set_nfiles (grown self pids ids nf) (Some (S nf))) pset' fs e)
| emit_written pids ids flags idx_once dfdict nf obs df fs' :
    getvardata pset "id" idx = Some pids →
    mapM (λ p, pids_written (registered self pids) !! p) pids = Some ids →
    getvardata pset "once_written" idx = Some flags →
    take_idx idx (np_where (λ v, v =? 0) flags) = Some idx_once →
    fill_dfdict (registered self pids)
      (setvardata pset "once_written" idx_once (replicate (length idx_once) 1))
      (vars_to_write self).*1 idx idx_once [] = Some dfdict →
    nfiles self = Some nf →
    take_idx (obs_written (grown self pids ids nf)) ids = Some obs →
    pd_DataFrame dfdict (zip pids obs) = Some df →
    to_parquet fs (fname self) ("p" ++ fmt_03d nf ++ ".parquet") df = Some fs' →
    emit_path self pset fs idx
      {| r_self := counted self pids ids nf;
         r_pset := setvardata pset "once_written" idx_once (replicate (length idx_once) 1);
         r_fs := fs';
         r_out := Written (fname self ++ "/" ++ "p" ++ fmt_03d nf ++ ".parquet") df |}.

(** What holds of the writer between calls: the registry is a bijection
    onto the indices below [maxids], no counter is set before the first
    chunk, and no counter is set at an index not yet assigned. *)
Record writer_ok (self : ParticleFile) : Prop := {
  ok_registry : registry_ok (pids_written self) (maxids self);
  ok_first : nfiles self = Some 0%nat → Forall (λ v, v = 0%nat) (obs_written self);
  ok_beyond : ∀ i v, (maxids self ≤ i)%nat → obs_written self !! i = Some v → v = 0%nat
}.

(** What one call does to the counters: an emitted chunk carries, for
    each selected identity, the counter before the call, and adds one to
    the counters of the selected identities; any other end of the call
    leaves every counter as it was. *)
Definition counters_step (self : ParticleFile) (r : Result) (selected : option (list Z))
  : Prop :=
  match r_out r with
  | Written _ df =>
      selected = Some (df_index df).*1
      ∧ Forall (λ row, row.2 = counter self row.1) (df_index df)
      ∧ ∀ p, counter (r_self r) p
             = (counter self p + if bool_decide (p ∈ (df_index df).*1) then 1 else 0)%nat
  | _ => ∀ p, counter (r_self r) p = counter self p
  end.

(** Without mpi4py, or with one process, the constructor takes the
    single-process branch of line 129. *)
Definition single_process (MPI : option (nat * nat)) : Prop :=
  match MPI with
  | Some (_, size) => (size ≤ 1)%nat
  | None => True
  end.

(** The fill value of [t] is the largest value of [t] itself. *)
Definition fills_own_maximum (t : DType) : Prop :=
  ∃ m, max_representable t = Some m ∧ fill_value_map t = IntFill m.

(** A column of a chunk is a fetch from the collection. *)
Definition fetched_from (pset : Collection) (col : list Z) : Prop :=
  ∃ var indices, getvardata pset var indices = Some col.

(** ** A small simulation

    Two particles, a variable written at every output and one written
    once; every particle is due at every time. *)
Module Scenario.

Definition Delete : Z := 3.

Definition due_all (data : gmap string (list Z)) (time : Z) : list nat :=
  seq 0 (length (default [] (data !! "id"))).

Definition schema : list PVariable :=
  [ {| name := "id"; dtype := int64; to_write := tw_True |};
    {| name := "lon"; dtype := float32; to_write := tw_True |};
    {| name := "age0"; dtype := float32; to_write := tw_once |};
    {| name := "tmp"; dtype := float32; to_write := tw_False |} ].

(** A schema without a write-once variable. *)
Definition schema_plain : list PVariable :=
  [ {| name := "id"; dtype := int64; to_write := tw_True |};
    {| name := "lon"; dtype := float32; to_write := tw_True |} ].

Definition particles (vars : list PVariable) (ids state once lon age0 : list Z)
  : Collection :=
  {| _data := <["id" := ids]> (<["state" := state]> (<["once_written" := once]>
              (<["lon" := lon]> (<["age0" := age0]> ∅))));
     _ncount := length ids;
     variables := vars |}.

(** Two particles, already written once by an earlier writer. *)
Definition pset : Collection := particles schema [1; 2] [0; 0] [1; 1] [10; 20] [7; 8].

Definition pset_plain : Collection :=
  particles schema_plain [1; 2] [0; 0] [1; 1] [10; 20] [7; 8].

(** The second particle is in the deleted state. *)
Definition pset_deleted : Collection :=
  particles schema_plain [1; 2] [0; 3] [0; 0] [10; 20] [7; 8].

Definition pset_empty : Collection := particles schema [] [] [] [] [].

(** An output folder left by an earlier writer. *)
Definition old_chunk : DataFrame :=
  {| df_index := [(1, 0%nat)]; df_columns := [("lon", [10])] |}.

Definition fs_old : FileSystem := {[ "out.parquet" := Dir [("p000.parquet", old_chunk)] ]}.

Definition init := __init__ None fs_old "out.parquet" pset false.
Definition init_plain := __init__ None fs_old "out.parquet" pset_plain false.

(** The writer the constructor returns for [pset]. *)
Definition writer : ParticleFile :=
  {| write_ondelete := false; lasttime_written := None; maxids := 0;
     obs_written := []; pids_written := ∅;
     vars_to_write := [("id", int64); ("lon", float32); ("age0", float32)];
     ptype := schema; fname := "out.parquet"; nfiles := Some 0%nat |}.

Definition writer_plain : ParticleFile :=
  {| write_ondelete := false; lasttime_written := None; maxids := 0;
     obs_written := []; pids_written := ∅;
     vars_to_write := [("id", int64); ("lon", float32)];
     ptype := schema_plain; fname := "out.parquet"; nfiles := Some 0%nat |}.

(** The same writer in on-deletion mode. *)
Definition writer_ondelete : ParticleFile :=
  {| write_ondelete := true; lasttime_written := None; maxids := 0;
     obs_written := []; pids_written := ∅;
     vars_to_write := [("id", int64); ("lon", float32)];
     ptype := schema_plain; fname := "out.parquet"; nfiles := Some 0%nat |}.

Definition write := write Delete due_all.
Definition run := run Delete due_all.

(** A periodic write at time 5, then a deletion write at the same time. *)
Definition periodic5 : Result := write writer_plain (i_pset init_plain) (i_fs init_plain) 5 d_False.
Definition deletion5 : Result :=
  write (r_self periodic5) (r_pset periodic5) (r_fs periodic5) 5 (d_list [0%nat]).

(** Two periodic writes of the same particles, with a write-once variable. *)
Definition first : Result := write writer (i_pset init) (i_fs init) 0 d_False.
Definition second : Result := write (r_self first) (r_pset first) (r_fs first) 1 d_False.

(** The first particle is written alone; the second is selected for the
    first time together with it, and alone after that. *)
Definition alone : Result := write writer (i_pset init) (i_fs init) 0 (d_list [0%nat]).
Definition together : Result := write (r_self alone) (r_pset alone) (r_fs alone) 1 d_False.
Definition late : Result :=
  write (r_self together) (r_pset together) (r_fs together) 2 (d_list [1%nat]).

(** The same with three particles, all flagged by an earlier writer: the
    first is written alone, then all three together, then the second and
    the third on their own. *)
Definition pset_three : Collection :=
  particles schema [1; 2; 3] [0; 0; 0] [1; 1; 1] [10; 20; 30] [7; 8; 9].
Definition init_three : InitResult := __init__ None fs_old "out.parquet" pset_three false.
Definition alone_of_three : Result :=
  write writer (i_pset init_three) (i_fs init_three) 0 (d_list [0%nat]).
Definition all_three : Result :=
  write (r_self alone_of_three) (r_pset alone_of_three) (r_fs alone_of_three) 1 d_False.
Definition second_of_three : Result :=
  write (r_self all_three) (r_pset all_three) (r_fs all_three) 2 (d_list [1%nat]).
Definition third_of_three : Result :=
  write (r_self second_of_three) (r_pset second_of_three) (r_fs second_of_three) 3
    (d_list [2%nat]).

(** Calls of the end-to-end scenario of the specification, on the schema
    without a write-once variable: time 0 with identities 1 and 2, time 0
    again, time 1 with identities 1, 2 and 3. *)
Definition pset3 : Collection :=
  particles schema_plain [1; 2; 3] [0; 0; 0] [1; 1; 0] [11; 21; 31] [7; 8; 9].

Definition calls : list Call :=
  [ {| c_pset := i_pset init_plain; c_time := 0; c_deleted_only := d_False |};
    {| c_pset := i_pset init_plain; c_time := 0; c_deleted_only := d_False |};
    {| c_pset := pset3; c_time := 1; c_deleted_only := d_False |} ].

(** Calls of the on-deletion scenario: times 0 and 1 without deletion
    subset, time 2 with the second particle as deletion subset. *)
Definition calls_ondelete : list Call :=
  [ {| c_pset := pset_deleted; c_time := 0; c_deleted_only := d_False |};
    {| c_pset := pset_deleted; c_time := 1; c_deleted_only := d_False |};
    {| c_pset := pset_deleted; c_time := 2; c_deleted_only := d_True |} ].

End Scenario.

(** ** The rest of the module, and names for what it leaves on disk *)

(** [_set_calendar] (lines 28-32). *)
Definition _set_calendar (origin_calendar : string) : string :=
  if String.eqb origin_calendar "np_datetime64" then "standard" else origin_calendar.

(** [d.get(k)] on an insertion-ordered dict. *)
Fixpoint dict_get {V} (k : string) (d : list (string * V)) : option V :=
  match d with
  | [] => None
  | (k', v) :: d' => if String.eqb k' k then Some v else dict_get k d'
  end.

(** The file name of line 278 for the chunk number [nfiles]. *)
Definition chunk_file (nfiles : nat) : string := "p" ++ fmt_03d nfiles ++ ".parquet".

(** A folder that holds the given chunks under their numbers, the first
    one as number 0. *)
Definition chunk_files (chunks : list DataFrame) : list (string * DataFrame) :=
  imap (λ i df, (chunk_file i, df)) chunks.

(** The decimal number a file name digit string stands for. *)
Definition digits_value (s : string) : option nat :=
  Nat.of_uint <$> NilEmpty.uint_of_string s.
(** * Properties *)

(** ** The helpers *)

Lemma elem_of_np_where_from {A} (cond : A → bool) (a : list A) (k i : nat) :
  i ∈ np_where_from cond k a ↔
  (k ≤ i)%nat ∧ ∃ x, a !! (i - k)%nat = Some x ∧ cond x = true.
Proof.
  revert k. induction a as [|x a IH]; intros k; simpl.
  - split; [by intros ?%elem_of_nil | by intros (_ & ? & ? & _)].
  - assert (i ∈ np_where_from cond (S k) a ↔
            (k < i)%nat ∧ ∃ y, (x :: a) !! (i - k)%nat = Some y ∧ cond y = true) as Htl.
    { rewrite IH. split.
      - intros (Hle & y & Hy & Hc). split; [lia|]. exists y. split; [|done].
        replace (i - k)%nat with (S (i - S k)) by lia. done.
      - intros (Hlt & y & Hy & Hc). split; [lia|]. exists y. split; [|done].
        replace (i - k)%nat with (S (i - S k)) in Hy by lia. done. }
    destruct (cond x) eqn:Hx.
    + rewrite elem_of_cons, Htl. split.
      * intros [->|[Hlt ?]]; [|split; [lia|done]].
        split; [lia|]. exists x. by rewrite Nat.sub_diag.
      * intros (Hle & y & Hy & Hc).
        destruct (decide (i = k)) as [->|Hne]; [by left|].
        right. split; [lia|]. by exists y.
    + rewrite Htl. split.
      * intros [Hlt ?]. split; [lia|done].
      * intros (Hle & y & Hy & Hc). split; [|by exists y].
        destruct (decide (i = k)) as [->|Hne]; [|lia].
        rewrite Nat.sub_diag in Hy. simpl in Hy. congruence.
Qed.

Lemma elem_of_np_where {A} (cond : A → bool) (a : list A) (i : nat) :
  i ∈ np_where cond a ↔ ∃ x, a !! i = Some x ∧ cond x = true.
Proof.
  unfold np_where. rewrite elem_of_np_where_from, Nat.sub_0_r.
  split; [by intros [_ ?] | intros ?; split; [lia|done]].
Qed.

Lemma take_idx_Some {A} (a : list A) (idx : list nat) (vals : list A) :
  take_idx a idx = Some vals ↔ Forall2 (λ i v, a !! i = Some v) idx vals.
Proof. unfold take_idx. apply mapM_Some. Qed.

Lemma take_idx_length {A} (a : list A) (idx : list nat) (vals : list A) :
  take_idx a idx = Some vals → length vals = length idx.
Proof. intros H%take_idx_Some. symmetry. by eapply Forall2_length. Qed.

(** [a[idx] += 1] adds one at the positions of [idx] and nowhere else. *)
Lemma iadd1_idx_length (a : list nat) (idx : list nat) :
  length (iadd1_idx a idx) = length a.
Proof.
  unfold iadd1_idx.
  induction idx as [|i idx IH] using rev_ind; simpl; [done|].
  rewrite foldl_app. simpl. by rewrite length_insert.
Qed.

Lemma iadd1_idx_lookup (a : list nat) (idx : list nat) (j : nat) :
  Forall (λ i, i < length a)%nat idx →
  iadd1_idx a idx !! j =
  if bool_decide (j ∈ idx) then (λ v, v + 1)%nat <$> a !! j else a !! j.
Proof.
  unfold iadd1_idx. intros Hidx.
  induction idx as [|i idx IH] using rev_ind.
  - case_bool_decide as Hin; [by apply elem_of_nil in Hin | done].
  - apply Forall_app in Hidx as [Hidx Hi]. rewrite Forall_singleton in Hi.
    rewrite foldl_app. cbn [foldl].
    destruct (decide (j = i)) as [->|Hne].
    + rewrite list_lookup_insert_eq
        by (fold (iadd1_idx a idx); by rewrite iadd1_idx_length).
      rewrite bool_decide_eq_true_2
        by (apply elem_of_app; right; by apply list_elem_of_singleton).
      destruct (lookup_lt_is_Some_2 a i Hi) as [v Hv]. by rewrite Hv.
    + rewrite list_lookup_insert_ne by done. rewrite IH by done.
      repeat case_bool_decide; try done.
      * exfalso. set_solver.
      * exfalso. set_solver.
Qed.

(** ** The identity registry *)

Lemma register_from_notin (pw : gmap Z nat) (m k : nat) (l : list Z) (p : Z) :
  p ∉ l →
  foldl (λ acc ip, <[ip.2 := (m + ip.1)%nat]> acc) pw (enumerate_from k l) !! p = pw !! p.
Proof.
  revert pw k. induction l as [|x l IH]; intros pw k Hp; simpl; [done|].
  apply not_elem_of_cons in Hp as [Hne Hp].
  rewrite IH by done. by rewrite lookup_insert_ne.
Qed.

Lemma register_from_in (pw : gmap Z nat) (m k : nat) (l : list Z) (j : nat) (p : Z) :
  NoDup l → l !! j = Some p →
  foldl (λ acc ip, <[ip.2 := (m + ip.1)%nat]> acc) pw (enumerate_from k l) !! p
  = Some (m + (k + j))%nat.
Proof.
  revert pw k j. induction l as [|x l IH]; intros pw k j Hnd Hj; simpl; [done|].
  apply NoDup_cons in Hnd as [Hx Hnd].
  destruct j as [|j]; simpl in Hj.
  - injection Hj as ->. rewrite register_from_notin by done.
    rewrite lookup_insert_eq. f_equal. lia.
  - rewrite (IH _ (S k) j) by done. f_equal. lia.
Qed.

Lemma register_from_size (pw : gmap Z nat) (m k : nat) (l : list Z) :
  NoDup l → Forall (λ p, pw !! p = None) l →
  size (foldl (λ acc ip, <[ip.2 := (m + ip.1)%nat]> acc) pw (enumerate_from k l))
  = (size pw + length l)%nat.
Proof.
  revert pw k. induction l as [|x l IH]; intros pw k Hnd Hnew; simpl; [lia|].
  apply NoDup_cons in Hnd as [Hx Hnd].
  apply Forall_cons in Hnew as [Hxnew Hnew].
  rewrite IH; [|done|].
  - rewrite map_size_insert_None by done. lia.
  - apply Forall_forall. intros p Hp.
    rewrite lookup_insert_ne by (intros ->; done).
    by eapply Forall_forall in Hnew.
Qed.

Lemma register_lookup_old (pw : gmap Z nat) (m : nat) (l : list Z) (p : Z) :
  p ∉ l → register pw m l !! p = pw !! p.
Proof. apply register_from_notin. Qed.

Lemma register_lookup_new (pw : gmap Z nat) (m : nat) (l : list Z) (j : nat) (p : Z) :
  NoDup l → l !! j = Some p → register pw m l !! p = Some (m + j)%nat.
Proof. intros Hnd Hj. unfold register, enumerate. by rewrite (register_from_in _ _ 0 l j). Qed.

Lemma register_lookup_Some (pw : gmap Z nat) (m : nat) (l : list Z) (p : Z) (i : nat) :
  NoDup l →
  (register pw m l !! p = Some i ↔
   ((p ∉ l) ∧ pw !! p = Some i) ∨ (∃ j, l !! j = Some p ∧ i = (m + j)%nat)).
Proof.
  intros Hnd. destruct (decide (p ∈ l)) as [Hin|Hnin].
  - apply list_elem_of_lookup in Hin as Hj. destruct Hj as [j Hj].
    rewrite (register_lookup_new _ _ _ j) by done. split.
    + intros [= <-]. right. eauto.
    + intros [[? _]|(j' & Hj' & ->)]; [done|].
      by rewrite (NoDup_lookup l j j' p).
  - rewrite register_lookup_old by done. split; [by left|].
    intros [[_ ?]|(j & Hj & _)]; [done|].
    exfalso. apply Hnin. apply list_elem_of_lookup. eauto.
Qed.

(** The batch of new identities: those of [pids] that are not yet
    registered, each once, in strictly ascending order. *)
Lemma elem_of_to_add_of (pw : gmap Z nat) (pids : list Z) (p : Z) :
  p ∈ to_add_of pw pids ↔ p ∈ pids ∧ pw !! p = None.
Proof.
  unfold to_add_of. rewrite merge_sort_Permutation, elem_of_elements.
  rewrite elem_of_difference, elem_of_list_to_set, not_elem_of_dom. done.
Qed.

Lemma NoDup_to_add_of (pw : gmap Z nat) (pids : list Z) : NoDup (to_add_of pw pids).
Proof. unfold to_add_of. rewrite merge_sort_Permutation. apply NoDup_elements. Qed.

Lemma to_add_of_ascending (pw : gmap Z nat) (pids : list Z) (i j : nat) (p q : Z) :
  (i < j)%nat → to_add_of pw pids !! i = Some p → to_add_of pw pids !! j = Some q →
  p < q.
Proof.
  intros Hij Hi Hj.
  assert (StronglySorted Z.le (to_add_of pw pids)) as Hs.
  { apply (StronglySorted_merge_sort Z.le); apply _. }
  assert (p ≤ q) as Hle.
  { clear -Hs Hij Hi Hj. revert i j Hij Hi Hj.
    induction Hs as [|x l Hs IH Hx]; intros i j Hij Hi Hj; [done|].
    destruct j as [|j]; [lia|]. simpl in Hj.
    destruct i as [|i]; simpl in Hi.
    - injection Hi as ->. eapply Forall_forall in Hx; [done|].
      apply list_elem_of_lookup. eauto.
    - apply (IH i j); [lia|done..]. }
  assert (p ≠ q); [|lia].
  intros ->. pose proof (NoDup_to_add_of pw pids) as Hnd.
  pose proof (NoDup_lookup _ _ _ _ Hnd Hi Hj). lia.
Qed.

Lemma registry_ok_empty : registry_ok ∅ 0.
Proof.
  split.
  - by rewrite map_size_empty.
  - intros p i. by rewrite lookup_empty.
  - intros p q i. by rewrite lookup_empty.
  - intros i. lia.
Qed.

Lemma register_size (pw : gmap Z nat) (m : nat) (pids : list Z) :
  size (register pw m (to_add_of pw pids)) = (size pw + length (to_add_of pw pids))%nat.
Proof.
  apply register_from_size; [apply NoDup_to_add_of|].
  apply Forall_forall. by intros p [_ ?]%elem_of_to_add_of.
Qed.

Lemma register_ok (pw : gmap Z nat) (m : nat) (pids : list Z) :
  registry_ok pw m →
  registry_ok (register pw m (to_add_of pw pids))
              (size (register pw m (to_add_of pw pids))).
Proof.
  intros [Hsize Hbound Hinj Hsurj].
  pose proof (NoDup_to_add_of pw pids) as Hnd.
  pose proof (register_size pw m pids) as Hsz.
  set (l := to_add_of pw pids) in *.
  split; [done|..].
  - intros p i Hp. apply register_lookup_Some in Hp; [|done].
    destruct Hp as [[_ Hold]|(j & Hj & ->)].
    + apply Hbound in Hold. lia.
    + apply lookup_lt_Some in Hj. lia.
  - intros p q i Hp Hq.
    apply register_lookup_Some in Hp; [|done].
    apply register_lookup_Some in Hq; [|done].
    destruct Hp as [[_ Hp]|(j & Hj & ->)], Hq as [[_ Hq]|(j' & Hj' & Hjj')].
    + by eapply Hinj.
    + apply Hbound in Hp. lia.
    + apply Hbound in Hq. lia.
    + assert (j = j') as -> by lia. congruence.
  - intros i Hi. destruct (decide (i < m)%nat) as [Hlt|Hge].
    + destruct (Hsurj i Hlt) as [p Hp]. exists p.
      apply register_lookup_Some; [done|]. left. split; [|done].
      intros [_ Hnone]%elem_of_to_add_of. congruence.
    + destruct (lookup_lt_is_Some_2 l (i - m)) as [p Hp]; [lia|].
      exists p. apply register_lookup_Some; [done|]. right.
      exists (i - m)%nat. split; [done|lia].
Qed.

(** Registered identities keep their index. *)
Lemma register_keeps (pw : gmap Z nat) (m : nat) (pids : list Z) (p : Z) (i : nat) :
  pw !! p = Some i → register pw m (to_add_of pw pids) !! p = Some i.
Proof.
  intros Hp. rewrite register_lookup_old; [done|].
  intros [_ ?]%elem_of_to_add_of. congruence.
Qed.

(** After the registration every identity of the batch is registered. *)
Lemma register_covers (pw : gmap Z nat) (m : nat) (pids : list Z) (p : Z) :
  p ∈ pids → is_Some (register pw m (to_add_of pw pids) !! p).
Proof.
  intros Hp. destruct (pw !! p) as [i|] eqn:Hpw.
  - exists i. by apply register_keeps.
  - assert (p ∈ to_add_of pw pids) as Hin by (by apply elem_of_to_add_of).
    apply list_elem_of_lookup in Hin as [j Hj].
    exists (m + j)%nat. apply register_lookup_new; [apply NoDup_to_add_of|done].
Qed.

(** ** What [emit] leaves alone *)

Ltac emit_cases :=
  unfold emit, raise; repeat case_match; simplify_eq/=.

Lemma emit_lasttime_written self pset fs idx :
  lasttime_written (r_self (emit self pset fs idx)) = lasttime_written self.
Proof. by emit_cases. Qed.

Lemma emit_out self pset fs idx :
  (∃ path df, r_out (emit self pset fs idx) = Written path df)
  ∨ (∃ e, r_out (emit self pset fs idx) = Raised e).
Proof. emit_cases; eauto. Qed.

Lemma chunk_of_length (o : Outcome) : (length (chunk_of o) ≤ 1)%nat.
Proof. destruct o; simpl; lia. Qed.

(** Every identity of the batch has an index once the batch is
    registered: the [KeyError] of line 251 cannot happen. *)
Lemma registered_covers (self : ParticleFile) (pids : list Z) :
  is_Some (mapM (λ p, pids_written (registered self pids) !! p) pids).
Proof.
  apply mapM_is_Some. apply Forall_forall. intros p Hp.
  by apply register_covers.
Qed.

Lemma emit_emit_path self pset fs idx :
  emit_path self pset fs idx (emit self pset fs idx).
Proof.
  unfold emit.
  destruct (getvardata pset "id" idx) as [pids|] eqn:Hpids; [|by constructor].
  cbv zeta.
  destruct (registered_covers self pids) as [ids Hids].
  change (mapM _ pids) with (mapM (λ p, pids_written (registered self pids) !! p) pids).
  rewrite Hids.
  change (set_maxids _ _) with (registered self pids).
  destruct (getvardata pset "once_written" idx) as [flags|] eqn:Hflags;
    [|by econstructor].
  destruct (take_idx ids _) as [ids_once|] eqn:Hids_once; [|by econstructor].
  destruct (take_idx idx _) as [idx_once|] eqn:Hidx_once; [|by econstructor].
  assert (length ids_once = length idx_once) as ->.
  { apply take_idx_length in Hids_once, Hidx_once. congruence. }
  destruct (fill_dfdict _ _ _ _ _ _) as [dfdict|] eqn:Hdf; [|by econstructor].
  cbn [nfiles registered set_maxids set_pids_written].
  destruct (nfiles self) as [nf|] eqn:Hnf; [|by econstructor].
  change (set_obs_written (registered self pids) _) with (grown self pids ids nf).
  destruct (take_idx _ ids) as [obs|] eqn:Hobs; [|by econstructor].
  destruct (pd_DataFrame dfdict _) as [df|] eqn:Hframe; [|by econstructor].
  destruct (to_parquet _ _ _ _) as [fs'|] eqn:Hfs; [|by econstructor].
  by eapply emit_written.
Qed.

(** ** The counter table *)

Lemma grow_obs_length (nf n m : nat) (obs : list nat) :
  (m ≤ length (grow_obs nf n m obs))%nat.
Proof.
  unfold grow_obs. generalize (if (nf =? 0)%nat then replicate n 0%nat else obs).
  intros obs1. destruct (Nat.ltb_spec (length obs1) m) as [Hlt|Hge]; [|done].
  rewrite length_app, length_replicate. lia.
Qed.

Lemma grow_obs_first (n m : nat) (obs : list nat) :
  Forall (λ v, v = 0%nat) (grow_obs 0 n m obs).
Proof.
  unfold grow_obs. simpl. case_match.
  - apply Forall_app. split; by apply Forall_replicate.
  - by apply Forall_replicate.
Qed.

Lemma grow_obs_later (nf n m : nat) (obs : list nat) (i : nat) :
  nf ≠ 0%nat →
  default 0%nat (grow_obs nf n m obs !! i) = default 0%nat (obs !! i).
Proof.
  intros Hnf. unfold grow_obs.
  destruct (Nat.eqb_spec nf 0) as [|_]; [done|].
  case_match; [|done].
  destruct (decide (i < length obs)%nat) as [Hlt|Hge].
  - by rewrite lookup_app_l.
  - rewrite lookup_app_r by lia.
    rewrite (lookup_ge_None_2 obs) by lia. simpl.
    destruct (replicate _ _ !! _) as [v|] eqn:Hv; [|done].
    by apply lookup_replicate in Hv as [-> _].
Qed.

Lemma lookup_zeros (l : list nat) (i : nat) :
  Forall (λ v, v = 0%nat) l → default 0%nat (l !! i) = 0%nat.
Proof.
  intros Hl. destruct (l !! i) as [v|] eqn:Hv; [|done].
  apply list_elem_of_lookup_2 in Hv. by eapply Forall_forall in Hl.
Qed.

Lemma counter_registered (self : ParticleFile) (pids : list Z) (p : Z) :
  writer_ok self → counter (registered self pids) p = counter self p.
Proof.
  intros [Hreg _ Hbeyond]. unfold counter, registered. simpl.
  pose proof (NoDup_to_add_of (pids_written self) pids) as Hnd.
  destruct (register _ _ _ !! p) as [i|] eqn:Hp.
  - apply register_lookup_Some in Hp; [|done].
    destruct Hp as [[_ Hp]|(j & Hj & ->)]; [by rewrite Hp|].
    assert (p ∈ to_add_of (pids_written self) pids) as Hin
      by (apply list_elem_of_lookup; eauto).
    apply elem_of_to_add_of in Hin as [_ ->].
    destruct (obs_written self !! _) as [v|] eqn:Hv; [|done].
    simpl. eapply Hbeyond; [|done]. lia.
  - destruct (pids_written self !! p) as [i|] eqn:Hold; [|done].
    by rewrite (register_keeps _ _ _ _ _ Hold) in Hp.
Qed.

Lemma counter_grown (self : ParticleFile) (pids : list Z) (ids : list nat) (nf : nat)
    (p : Z) :
  writer_ok self → nfiles self = Some nf →
  counter (grown self pids ids nf) p = counter self p.
Proof.
  intros Hok Hnf. rewrite <- (counter_registered self pids p Hok).
  unfold counter, grown. simpl.
  destruct (register _ _ _ !! p) as [i|]; [|done].
  destruct (decide (nf = 0%nat)) as [->|Hne].
  - rewrite !lookup_zeros; [done| |apply grow_obs_first].
    by apply (ok_first self Hok).
  - by apply grow_obs_later.
Qed.

Lemma writer_ok_registered (self : ParticleFile) (pids : list Z) :
  writer_ok self → writer_ok (registered self pids).
Proof.
  intros [Hreg Hfirst Hbeyond]. split; simpl.
  - by apply register_ok.
  - done.
  - intros i v Hi. apply Hbeyond.
    rewrite register_size in Hi. rewrite (reg_size _ _ Hreg). lia.
Qed.

Lemma writer_ok_grown (self : ParticleFile) (pids : list Z) (ids : list nat) (nf : nat) :
  writer_ok self → nfiles self = Some nf → writer_ok (grown self pids ids nf).
Proof.
  intros Hok Hnf. pose proof (writer_ok_registered self pids Hok) as [Hreg Hfirst Hbeyond].
  split; simpl; [done|..].
  - intros Hnf0. assert (nf = 0%nat) as -> by congruence. apply grow_obs_first.
  - intros i v Hi Hv. destruct (decide (nf = 0%nat)) as [->|Hne].
    + apply list_elem_of_lookup_2 in Hv.
      by eapply Forall_forall in Hv; [|apply grow_obs_first].
    + pose proof (grow_obs_later nf (length ids)
        (size (register (pids_written self) (maxids self)
                 (to_add_of (pids_written self) pids)))
        (obs_written self) i Hne) as Heq.
      rewrite Hv in Heq. simpl in Heq. rewrite Heq.
      destruct (obs_written self !! i) as [w|] eqn:Hw; [|done].
      simpl. by eapply (Hbeyond i w).
Qed.

Lemma writer_ok_set_nfiles (self : ParticleFile) (nf : nat) :
  writer_ok self → writer_ok (set_nfiles self (Some (S nf))).
Proof. intros [Hreg Hfirst Hbeyond]. by split. Qed.

Lemma writer_ok_set_lasttime_written (self : ParticleFile) (t : option Z) :
  writer_ok self → writer_ok (set_lasttime_written self t).
Proof. intros [Hreg Hfirst Hbeyond]. by split. Qed.

(** The local indices of the batch are in range of the grown table. *)
Lemma ids_in_range (self : ParticleFile) (pids : list Z) (ids : list nat) (nf : nat) :
  writer_ok self →
  mapM (λ p, pids_written (registered self pids) !! p) pids = Some ids →
  Forall (λ i, i < maxids (registered self pids)
             ∧ i < length (obs_written (grown self pids ids nf)))%nat ids.
Proof.
  intros Hok Hids. apply mapM_Some in Hids.
  pose proof (ok_registry _ (writer_ok_registered self pids Hok)) as Hreg.
  apply Forall_forall. intros i Hi.
  apply list_elem_of_lookup in Hi as [k Hk].
  destruct (Forall2_lookup_r _ _ _ _ _ Hids Hk) as (p & _ & Hp).
  apply (reg_bound _ _ Hreg) in Hp. split; [done|].
  unfold grown. cbn [obs_written set_obs_written].
  eapply Nat.lt_le_trans; [done|]. apply grow_obs_length.
Qed.

Lemma writer_ok_counted (self : ParticleFile) (pids : list Z) (ids : list nat) (nf : nat) :
  writer_ok self → nfiles self = Some nf →
  mapM (λ p, pids_written (registered self pids) !! p) pids = Some ids →
  writer_ok (counted self pids ids nf).
Proof.
  intros Hok Hnf Hids.
  pose proof (ids_in_range self pids ids nf Hok Hids) as Hrange.
  pose proof (writer_ok_grown self pids ids nf Hok Hnf) as [Hreg Hfirst Hbeyond].
  split; simpl; [done|done|].
  intros i v Hi Hv.
  rewrite iadd1_idx_lookup in Hv.
  - case_bool_decide as Hin; [|by eapply Hbeyond].
    eapply Forall_forall in Hrange; [|done].
    simpl in Hrange, Hi. lia.
  - eapply Forall_impl; [done|]. by intros ? [_ ?].
Qed.

(** Line 289: the counter of an identity of the batch goes up by one,
    every other counter stays. *)
Lemma counter_counted (self : ParticleFile) (pids : list Z) (ids : list nat) (nf : nat)
    (p : Z) :
  writer_ok self → nfiles self = Some nf →
  mapM (λ p, pids_written (registered self pids) !! p) pids = Some ids →
  counter (counted self pids ids nf) p
  = (counter self p + if bool_decide (p ∈ pids) then 1 else 0)%nat.
Proof.
  intros Hok Hnf Hids.
  pose proof (ids_in_range self pids ids nf Hok Hids) as Hrange.
  pose proof (ok_registry _ (writer_ok_registered self pids Hok)) as Hreg.
  rewrite <- (counter_grown self pids ids nf p Hok Hnf).
  apply mapM_Some in Hids.
  unfold counter. cbn [counted pids_written obs_written set_obs_written set_nfiles grown
                       set_maxids registered set_pids_written].
  destruct (register _ _ _ !! p) as [i|] eqn:Hp.
  - rewrite iadd1_idx_lookup by (eapply Forall_impl; [done|]; by intros ? [_ ?]).
    assert (i ∈ ids ↔ p ∈ pids) as Hiff.
    { split.
      - intros [k Hk]%list_elem_of_lookup.
        destruct (Forall2_lookup_r _ _ _ _ _ Hids Hk) as (q & Hq & Hqi).
        rewrite (reg_inj _ _ Hreg p q i Hp Hqi).
        apply list_elem_of_lookup. eauto.
      - intros [k Hk]%list_elem_of_lookup.
        destruct (Forall2_lookup_l _ _ _ _ _ Hids Hk) as (i' & Hi' & Hpi').
        simpl in Hpi'. rewrite Hp in Hpi'. injection Hpi' as <-.
        apply list_elem_of_lookup. eauto. }
    assert (i < length (grow_obs nf (length ids)
              (size (register (pids_written self) (maxids self)
                       (to_add_of (pids_written self) pids)))
              (obs_written self)))%nat as Hlt.
    { eapply Nat.lt_le_trans; [|apply grow_obs_length].
      by apply (reg_bound _ _ Hreg p). }
    destruct (grow_obs _ _ _ _ !! i) as [v|] eqn:Hv.
    + repeat case_bool_decide; simpl; try lia; tauto.
    + apply lookup_ge_None in Hv. simpl in Hv, Hlt. lia.
  - rewrite bool_decide_eq_false_2; [lia|].
    intros Hin. destruct (register_covers (pids_written self) (maxids self) pids p Hin)
      as [i Hi]. congruence.
Qed.

(** Line 275: the observation index of a row is the counter of its
    identity before the call. *)
Lemma emitted_obs (self : ParticleFile) (pids : list Z) (ids : list nat) (nf : nat)
    (obs : list nat) :
  writer_ok self → nfiles self = Some nf →
  mapM (λ p, pids_written (registered self pids) !! p) pids = Some ids →
  take_idx (obs_written (grown self pids ids nf)) ids = Some obs →
  Forall2 (λ p o, o = counter self p) pids obs.
Proof.
  intros Hok Hnf Hids Hobs.
  apply mapM_Some in Hids. apply take_idx_Some in Hobs.
  apply Forall2_same_length_lookup. split.
  - rewrite (Forall2_length _ _ _ Hids). by eapply Forall2_length.
  - intros k p o Hp Ho.
    destruct (Forall2_lookup_l _ _ _ _ _ Hids Hp) as (i & Hi & Hpi).
    destruct (Forall2_lookup_l _ _ _ _ _ Hobs Hi) as (o' & Ho' & Hio').
    assert (o' = o) as -> by congruence.
    rewrite <- (counter_grown self pids ids nf p Hok Hnf).
    unfold counter.
    change (pids_written (grown self pids ids nf))
      with (pids_written (registered self pids)).
    rewrite Hpi. by rewrite Hio'.
Qed.

(** ** One call *)

Lemma pd_DataFrame_Some data index df :
  pd_DataFrame data index = Some df →
  df_index df = index
  ∧ df_columns df = (λ col, (col.1, maybe_repeat col.2 (length index))) <$> data
  ∧ Forall (λ col, length col.2 = length index) (df_columns df).
Proof.
  unfold pd_DataFrame. cbv zeta. case_match eqn:Hall; [|done]. intros [= <-].
  split_and!; [done..|]. cbn [df_columns].
  apply Forall_forall. intros col Hcol%list_elem_of_In.
  rewrite forallb_forall in Hall. apply Hall in Hcol.
  by apply bool_decide_eq_true in Hcol.
Qed.

(** Columns that all have the length of the index are taken as they are. *)
Lemma pd_DataFrame_same_length data index :
  Forall (λ col : string * list Z, length col.2 = length index) data →
  pd_DataFrame data index = Some {| df_index := index; df_columns := data |}.
Proof.
  intros Hlens. unfold pd_DataFrame. cbv zeta.
  assert ((λ col : string * list Z, (col.1, maybe_repeat col.2 (length index))) <$> data
          = data) as ->.
  { induction Hlens as [|[k col] data Hcol _ IH]; [done|].
    rewrite fmap_cons, IH. f_equal. simpl in *. f_equal.
    unfold maybe_repeat. case_bool_decide as Hone; [|done]. by destruct Hone. }
  rewrite (proj2 (forallb_forall _ data)); [done|].
  intros col Hin%list_elem_of_In. apply bool_decide_eq_true.
  by eapply Forall_forall in Hlens.
Qed.

(** A column of length one that pandas repeats is the fetch at the
    repeated index. *)
Lemma fetched_from_maybe_repeat pset (col : list Z) (n : nat) :
  fetched_from pset col → fetched_from pset (maybe_repeat col n).
Proof.
  intros (var & indices & Hcol). unfold maybe_repeat.
  case_bool_decide as Hone; [|by exists var, indices].
  destruct Hone as [Hone _].
  destruct col as [|v [|? ?]]; try done.
  pose proof Hcol as Hlen. unfold getvardata in Hcol.
  destruct (_data pset !! var) as [a|] eqn:Ha; [|done]. simpl in Hcol.
  apply take_idx_length in Hcol as Hlen'.
  destruct indices as [|i [|? ?]]; try done.
  apply take_idx_Some in Hcol. apply Forall2_cons_1 in Hcol as [Hi _].
  exists var, (replicate n i). unfold getvardata. rewrite Ha. simpl.
  apply take_idx_Some. rewrite app_nil_r. by apply Forall2_replicate.
Qed.

Lemma emit_step self pset fs idx :
  writer_ok self →
  writer_ok (r_self (emit self pset fs idx))
  ∧ counters_step self (emit self pset fs idx) (getvardata pset "id" idx).
Proof.
  intros Hok. unfold counters_step.
  destruct (emit_emit_path self pset fs idx)
    as [Hpids|pids ids pset' e Hpids Hids|pids ids nf pset' e Hpids Hids Hnf
       |pids ids nf pset' e Hpids Hids Hnf
       |pids ids flags idx_once dfdict nf obs df fs' Hpids Hids Hflags Honce Hdf Hnf
          Hobs Hframe Hfs]; cbn [raise r_self r_out].
  - done.
  - split; [by apply writer_ok_registered|]. intros p. by apply counter_registered.
  - split; [by apply writer_ok_grown|]. intros p. by apply counter_grown.
  - split; [by apply writer_ok_set_nfiles, writer_ok_grown|].
    intros p. by rewrite <- (counter_grown self pids ids nf p Hok Hnf).
  - split; [by apply writer_ok_counted|].
    apply pd_DataFrame_Some in Hframe as (Hindex & _ & _).
    pose proof (emitted_obs self pids ids nf obs Hok Hnf Hids Hobs) as Hrows.
    assert ((df_index df).*1 = pids) as Hfst.
    { rewrite Hindex. apply fst_zip. by rewrite (Forall2_length _ _ _ Hrows). }
    rewrite Hfst. split_and!; [done| |].
    + rewrite Hindex. apply Forall_forall. intros [p o] Hin.
      apply list_elem_of_lookup in Hin as [k Hk].
      apply lookup_zip_with_Some in Hk as (p' & o' & [= <- <-] & Hp & Ho).
      simpl. by eapply Forall2_lookup_lr in Hrows.
    + intros p. by apply counter_counted.
Qed.

Section WriteStep.

Variable OperationCode_Delete : Z.
Variable _to_write_particles : gmap string (list Z) → Z → list nat.

#[local] Abbreviation write := (write OperationCode_Delete _to_write_particles).
#[local] Abbreviation selected_pids :=
  (selected_pids OperationCode_Delete _to_write_particles).

Lemma write_step self pset fs time deleted_only :
  writer_ok self →
  writer_ok (r_self (write self pset fs time deleted_only))
  ∧ counters_step self (write self pset fs time deleted_only)
      (selected_pids {| c_pset := pset; c_time := time;
                        c_deleted_only := deleted_only |}).
Proof.
  intros Hok. unfold write, selected_pids, selected_indices, write_indices.
  cbn [c_pset c_time c_deleted_only].
  destruct (gate _ _ _); [|done].
  destruct (_ncount pset =? 0)%nat; [done|].
  destruct (is_not_False deleted_only).
  - destruct (resolve_deleted _ _ _) as [e|idx]; [done|].
    case_bool_decide; [|done]. by apply emit_step.
  - case_bool_decide; [|by split; [apply writer_ok_set_lasttime_written|]].
    destruct (emit_step (set_lasttime_written self (Some time)) pset fs
                (_to_write_particles (_data pset) time)) as [Hok' Hstep];
      [by apply writer_ok_set_lasttime_written|].
    split; [done|]. exact Hstep.
Qed.

End WriteStep.

(** ** Runs *)

(** The rows of one identity in one chunk: a single row, numbered with
    the counter before the call, when the identity is in the batch. *)
Lemma obs_of_chunk (self : ParticleFile) (index : list (Z * nat)) (p : Z) :
  NoDup index.*1 →
  Forall (λ row, row.2 = counter self row.1) index →
  (filter (λ row, row.1 = p) index).*2
  = if bool_decide (p ∈ index.*1) then [counter self p] else [].
Proof.
  induction index as [|[q o] index IH]; intros Hnd Hrows.
  - by rewrite bool_decide_eq_false_2 by (by intros ?%elem_of_nil).
  - cbn [fmap list_fmap fst] in Hnd. apply NoDup_cons in Hnd as [Hq Hnd].
    apply Forall_cons in Hrows as [Ho Hrows]. simpl in Ho.
    specialize (IH Hnd Hrows).
    rewrite filter_cons. cbn [fst]. destruct (decide (q = p)) as [->|Hne].
    + rewrite bool_decide_eq_true_2 by (simpl; apply elem_of_cons; by left).
      rewrite bool_decide_eq_false_2 in IH by done.
      cbn [fmap list_fmap snd]. simpl in IH. rewrite IH. by rewrite Ho.
    + rewrite IH. repeat case_bool_decide; try done; exfalso; set_solver.
Qed.

Lemma obs_of_cons (p : Z) (df : DataFrame) (chunks : list DataFrame) :
  obs_of p (df :: chunks)
  = ((filter (λ row, row.1 = p) (df_index df)).*2 ++ obs_of p chunks)%list.
Proof. done. Qed.

Section RunCounters.

Variable OperationCode_Delete : Z.
Variable _to_write_particles : gmap string (list Z) → Z → list nat.

#[local] Abbreviation run := (run OperationCode_Delete _to_write_particles).
#[local] Abbreviation selected_pids :=
  (selected_pids OperationCode_Delete _to_write_particles).

Lemma run_writer_ok self fs calls :
  writer_ok self → writer_ok (run self fs calls).1.1.
Proof.
  revert self fs. induction calls as [|c calls IH]; intros self fs Hok; [done|].
  simpl. destruct (run _ _ calls) as [[self' fs'] chunks] eqn:Hrun. simpl.
  destruct c as [pset time d]. simpl in Hrun.
  specialize (IH _ (r_fs (write OperationCode_Delete _to_write_particles self pset fs time d))
    (proj1 (write_step OperationCode_Delete _to_write_particles self pset fs time d Hok))).
  by rewrite Hrun in IH.
Qed.

Lemma run_counters self fs calls (p : Z) :
  writer_ok self →
  Forall (λ c, ∀ pids, selected_pids c = Some pids → NoDup pids) calls →
  ∃ n, obs_of p (run self fs calls).2 = seq (counter self p) n
       ∧ counter (run self fs calls).1.1 p = (counter self p + n)%nat.
Proof.
  revert self fs. induction calls as [|c calls IH]; intros self fs Hok Hwf.
  - exists 0%nat. split; [done|]. simpl. lia.
  - apply Forall_cons in Hwf as [Hc Hwf]. simpl.
    destruct c as [pset time d]. cbn [c_pset c_time c_deleted_only].
    destruct (write_step OperationCode_Delete _to_write_particles self pset fs time d Hok)
      as [Hok' Hstep].
    set (r := write OperationCode_Delete _to_write_particles self pset fs time d) in *.
    destruct (IH (r_self r) (r_fs r) Hok' Hwf) as (n & Hobs & Hcount).
    destruct (run (r_self r) (r_fs r) calls) as [[self' fs'] chunks] eqn:Hrun.
    cbn [fst snd] in *. unfold counters_step in Hstep.
    destruct (r_out r) as [|t|path df|e];
      try (exists n; simpl; rewrite Hobs, Hcount, Hstep; done).
    destruct Hstep as (Hsel & Hrows & Hstep).
    specialize (Hc _ Hsel).
    cbn [chunk_of app]. rewrite obs_of_cons, Hobs, Hcount, Hstep.
    rewrite (obs_of_chunk self) by done.
    case_bool_decide.
    + exists (S n). split; [|lia]. simpl. f_equal. f_equal. lia.
    + exists n. split; [|lia]. simpl. f_equal. lia.
Qed.

End RunCounters.

(** ** The constructor *)

Lemma init_Some MPI fs name particleset wo self :
  i_self (__init__ MPI fs name particleset wo) = inr self →
  lasttime_written self = None ∧ maxids self = 0%nat ∧ obs_written self = []
  ∧ pids_written self = ∅ ∧ write_ondelete self = wo.
Proof.
  unfold __init__. repeat case_match; simpl; intros [= <-]; done.
Qed.

Lemma init_writer_ok MPI fs name particleset wo self :
  i_self (__init__ MPI fs name particleset wo) = inr self → writer_ok self.
Proof.
  intros (_ & Hmax & Hobs & Hpw & _)%init_Some. split.
  - rewrite Hpw, Hmax. apply registry_ok_empty.
  - intros _. by rewrite Hobs.
  - intros i v _. by rewrite Hobs.
Qed.

Lemma init_counter MPI fs name particleset wo self (p : Z) :
  i_self (__init__ MPI fs name particleset wo) = inr self → counter self p = 0%nat.
Proof.
  intros (_ & _ & _ & Hpw & _)%init_Some. unfold counter. by rewrite Hpw, lookup_empty.
Qed.

(** Line 88: every flag is zero after the constructor, also when it
    raises for the extension afterwards. *)
Lemma init_resets_once_written MPI fs name particleset wo (flags : list Z) :
  _data particleset !! "once_written" = Some flags →
  _data (i_pset (__init__ MPI fs name particleset wo)) !! "once_written"
  = Some (replicate (length flags) 0).
Proof.
  intros Hflags.
  assert (i_pset (__init__ MPI fs name particleset wo)
          = setallvardata particleset "once_written" 0) as ->.
  { unfold __init__. by repeat case_match. }
  simpl. rewrite lookup_alter_eq. by rewrite Hflags.
Qed.

(** ** The columns of a chunk *)

Lemma elem_of_dict_set {V} (k : string) (v : V) (d : list (string * V)) (kv : string * V) :
  kv ∈ dict_set k v d → kv = (k, v) ∨ kv ∈ d.
Proof.
  induction d as [|[k' v'] d IH]; simpl.
  - intros ->%list_elem_of_singleton. by left.
  - case_match.
    + intros [->|?]%elem_of_cons; [by left|]. right. by apply elem_of_cons; right.
    + intros [->|Hin]%elem_of_cons; [right; by apply elem_of_cons; left|].
      destruct (IH Hin) as [->|?]; [by left|]. right. by apply elem_of_cons; right.
Qed.

Lemma fill_dfdict_fetched self pset vars idx idx_once acc dfdict :
  fill_dfdict self pset vars idx idx_once acc = Some dfdict →
  Forall (λ kv, fetched_from pset kv.2) acc →
  Forall (λ kv, fetched_from pset kv.2) dfdict.
Proof.
  revert acc. induction vars as [|var vars IH]; intros acc; simpl.
  - by intros [= <-].
  - case_match; [by apply IH|].
    destruct (write_once self var) as [once|]; [|done]. simpl.
    destruct (getvardata pset var _) as [col|] eqn:Hcol; [|done]. simpl.
    intros Hfill Hacc. apply (IH _ Hfill).
    apply Forall_forall. intros kv [->|Hin]%elem_of_dict_set.
    + by eexists _, _.
    + by eapply Forall_forall in Hacc.
Qed.

(** Every column of an emitted chunk is a fetch from the collection as
    the call leaves it. *)
Lemma emit_columns_fetched self pset fs idx path df :
  r_out (emit self pset fs idx) = Written path df →
  Forall (λ kv, fetched_from (r_pset (emit self pset fs idx)) kv.2) (df_columns df).
Proof.
  destruct (emit_emit_path self pset fs idx)
    as [| | | |pids ids flags idx_once dfdict nf obs df' fs' Hpids Hids Hflags Honce Hdf
               Hnf Hobs Hframe Hfs]; try done.
  cbn [r_out r_pset]. intros [= _ <-].
  apply pd_DataFrame_Some in Hframe as (_ & -> & _).
  apply Forall_fmap. eapply Forall_impl; [by eapply fill_dfdict_fetched|].
  intros kv Hkv. by apply fetched_from_maybe_repeat.
Qed.

(** ** The attribute dictionary *)

Lemma add_var_attrs_fill reserved vars attrs :
  Forall (λ entry, ∀ v, ("_FillValue", a_fill v) ∈ entry.2 → ∃ t, v = fill_value_map t)
         attrs →
  Forall (λ entry, ∀ v, ("_FillValue", a_fill v) ∈ entry.2 → ∃ t, v = fill_value_map t)
         (add_var_attrs reserved vars attrs).
Proof.
  revert attrs. induction vars as [|[vname t] vars IH]; intros attrs Hattrs; [done|].
  simpl. apply IH. case_bool_decide; [done|].
  apply Forall_forall. intros entry [->|Hin]%elem_of_dict_set.
  - simpl. intros v Hv. exists t.
    repeat (apply elem_of_cons in Hv as [Hv|Hv]; [by simplify_eq|]).
    by apply elem_of_nil in Hv.
  - by eapply Forall_forall in Hattrs.
Qed.

Lemma attribute_fill_values reserved calendar origin self :
  Forall (λ entry, ∀ v, ("_FillValue", a_fill v) ∈ entry.2 → ∃ t, v = fill_value_map t)
         (_create_variables_attribute_dict reserved calendar origin self).
Proof.
  unfold _create_variables_attribute_dict. apply add_var_attrs_fill.
  repeat apply Forall_cons_2; try apply Forall_nil_2; simpl; intros v Hv.
  - repeat (apply elem_of_cons in Hv as [Hv|Hv]; [by simplify_eq|]).
    by apply elem_of_nil in Hv.
  - exists int64.
    repeat (apply elem_of_cons in Hv as [Hv|Hv]; [by simplify_eq|]).
    by apply elem_of_nil in Hv.
  - destruct calendar as [cal|].
    + repeat (apply elem_of_cons in Hv as [Hv|Hv]; [by simplify_eq|]).
      by apply elem_of_nil in Hv.
    + repeat (apply elem_of_cons in Hv as [Hv|Hv]; [by simplify_eq|]).
      by apply elem_of_nil in Hv.
  - repeat (apply elem_of_cons in Hv as [Hv|Hv]; [by simplify_eq|]).
    by apply elem_of_nil in Hv.
  - repeat (apply elem_of_cons in Hv as [Hv|Hv]; [by simplify_eq|]).
    by apply elem_of_nil in Hv.
Qed.

(** ** The registry across calls *)

Lemma to_add_of_eq (pw : gmap Z nat) (pids l : list Z) :
  NoDup l → StronglySorted Z.le l →
  (∀ p, p ∈ l ↔ p ∈ pids ∧ pw !! p = None) →
  to_add_of pw pids = l.
Proof.
  intros Hnd Hsorted Hl.
  apply (StronglySorted_unique Z.le); [|done|].
  - apply (StronglySorted_merge_sort Z.le); apply _.
  - apply NoDup_Permutation; [apply NoDup_to_add_of|done|].
    intros p. by rewrite elem_of_to_add_of, Hl.
Qed.

Lemma emit_registry self pset fs idx pids :
  getvardata pset "id" idx = Some pids →
  pids_written (r_self (emit self pset fs idx))
  = register (pids_written self) (maxids self) (to_add_of (pids_written self) pids)
  ∧ maxids (r_self (emit self pset fs idx))
    = size (pids_written (r_self (emit self pset fs idx))).
Proof.
  intros Hpids.
  destruct (emit_emit_path self pset fs idx)
    as [Hnone|pids' ids pset' e Hpids'|pids' ids nf pset' e Hpids'
       |pids' ids nf pset' e Hpids'
       |pids' ids flags idx_once dfdict nf obs df fs' Hpids'];
    [congruence|..]; by simplify_eq.
Qed.

Lemma emit_registry_ok self pset fs idx :
  registry_ok (pids_written self) (maxids self) →
  registry_ok (pids_written (r_self (emit self pset fs idx)))
              (maxids (r_self (emit self pset fs idx))).
Proof.
  intros Hreg. destruct (getvardata pset "id" idx) as [pids|] eqn:Hpids.
  - destruct (emit_registry self pset fs idx pids Hpids) as [Hpw Hmax].
    rewrite Hmax, Hpw. by apply register_ok.
  - unfold emit. by rewrite Hpids.
Qed.

Lemma emit_keeps self pset fs idx (p : Z) (i : nat) :
  pids_written self !! p = Some i →
  pids_written (r_self (emit self pset fs idx)) !! p = Some i.
Proof.
  intros Hp. destruct (getvardata pset "id" idx) as [pids|] eqn:Hpids.
  - destruct (emit_registry self pset fs idx pids Hpids) as [-> _].
    by apply register_keeps.
  - unfold emit. by rewrite Hpids.
Qed.

Section RegistryRuns.

Variable OperationCode_Delete : Z.
Variable _to_write_particles : gmap string (list Z) → Z → list nat.

#[local] Abbreviation write := (write OperationCode_Delete _to_write_particles).
#[local] Abbreviation run := (run OperationCode_Delete _to_write_particles).

Lemma write_registry_ok self pset fs time deleted_only :
  registry_ok (pids_written self) (maxids self) →
  registry_ok (pids_written (r_self (write self pset fs time deleted_only)))
              (maxids (r_self (write self pset fs time deleted_only))).
Proof.
  intros Hreg. unfold write, write_indices, raise.
  repeat case_match; simpl; try done; by apply emit_registry_ok.
Qed.

Lemma write_keeps self pset fs time deleted_only (p : Z) (i : nat) :
  pids_written self !! p = Some i →
  pids_written (r_self (write self pset fs time deleted_only)) !! p = Some i.
Proof.
  intros Hp. unfold write, write_indices, raise.
  repeat case_match; simpl; try done; by apply emit_keeps.
Qed.

Lemma run_registry_ok self fs calls :
  registry_ok (pids_written self) (maxids self) →
  registry_ok (pids_written (run self fs calls).1.1) (maxids (run self fs calls).1.1).
Proof.
  revert self fs. induction calls as [|c calls IH]; intros self fs Hreg; [done|].
  simpl.
  specialize (IH _ (r_fs (write self (c_pset c) fs (c_time c) (c_deleted_only c)))
    (write_registry_ok self (c_pset c) fs (c_time c) (c_deleted_only c) Hreg)).
  by destruct (run _ _ calls) as [[self' fs'] chunks].
Qed.

Lemma run_keeps self fs calls (p : Z) (i : nat) :
  pids_written self !! p = Some i →
  pids_written (run self fs calls).1.1 !! p = Some i.
Proof.
  revert self fs. induction calls as [|c calls IH]; intros self fs Hp; [done|].
  simpl.
  specialize (IH _ (r_fs (write self (c_pset c) fs (c_time c) (c_deleted_only c)))
    (write_keeps self (c_pset c) fs (c_time c) (c_deleted_only c) p i Hp)).
  by destruct (run _ _ calls) as [[self' fs'] chunks].
Qed.

End RegistryRuns.

(** The batches of the example: [A], [B] and [C] first, then [D] with
    [B] again. *)
Lemma register_example (A B C D : Z) (pids1 pids2 : list Z) :
  A < B → B < C → D ∉ [A; B; C] →
  (∀ p, p ∈ pids1 ↔ p ∈ [A; B; C]) →
  (∀ p, p ∈ pids2 ↔ p ∈ [D; B]) →
  let pw1 := register ∅ 0 (to_add_of ∅ pids1) in
  let pw2 := register pw1 (size pw1) (to_add_of pw1 pids2) in
  (pw1 !! A = Some 0 ∧ pw1 !! B = Some 1 ∧ pw1 !! C = Some 2)%nat
  ∧ size pw1 = 3%nat
  ∧ (pw2 !! D = Some 3 ∧ pw2 !! B = Some 1 ∧ pw2 !! A = Some 0 ∧ pw2 !! C = Some 2)%nat.
Proof.
  intros HAB HBC HD H1 H2.
  assert (D ≠ A ∧ D ≠ B ∧ D ≠ C) as (HDA & HDB & HDC).
  { split_and!; intros ->; apply HD; set_solver. }
  assert (to_add_of ∅ pids1 = [A; B; C]) as Hnew1.
  { apply to_add_of_eq.
    - repeat (apply NoDup_cons; split; [set_solver by lia|]). apply NoDup_nil_2.
    - repeat (apply SSorted_cons; [|repeat apply Forall_cons_2; try done; lia]).
      apply SSorted_nil.
    - intros p. rewrite lookup_empty, H1. tauto. }
  intros pw1. subst pw1. rewrite Hnew1.
  assert (register ∅ 0 [A; B; C]
          = <[C := 2%nat]> (<[B := 1%nat]> (<[A := 0%nat]> ∅))) as -> by done.
  assert (size (<[C := 2%nat]> (<[B := 1%nat]> (<[A := 0%nat]> (∅ : gmap Z nat)))) = 3%nat)
    as Hsize.
  { rewrite !map_size_insert_None, map_size_empty; [done|..].
    - apply lookup_empty.
    - rewrite lookup_insert_ne by lia. apply lookup_empty.
    - rewrite !lookup_insert_ne by lia. apply lookup_empty. }
  intros pw2. subst pw2. rewrite Hsize.
  assert (to_add_of (<[C := 2%nat]> (<[B := 1%nat]> (<[A := 0%nat]> ∅))) pids2 = [D])
    as ->.
  { apply to_add_of_eq.
    - apply NoDup_singleton.
    - apply SSorted_cons; [apply SSorted_nil|done].
    - intros p. rewrite H2. split.
      + intros ->%list_elem_of_singleton. split; [set_solver|].
        rewrite !lookup_insert_ne by done. apply lookup_empty.
      + intros [[->|[->|?%elem_of_nil]%elem_of_cons]%elem_of_cons Hnone];
          [set_solver| |done].
        rewrite lookup_insert_ne, lookup_insert_eq in Hnone by lia. done. }
  assert (register (<[C := 2%nat]> (<[B := 1%nat]> (<[A := 0%nat]> ∅))) 3 [D]
          = <[D := 3%nat]> (<[C := 2%nat]> (<[B := 1%nat]> (<[A := 0%nat]> ∅)))) as -> by done.
  split_and!; try done.
  - rewrite !lookup_insert_ne by lia. apply lookup_insert_eq.
  - rewrite lookup_insert_ne by lia. apply lookup_insert_eq.
  - apply lookup_insert_eq.
  - apply lookup_insert_eq.
  - rewrite !lookup_insert_ne by (done || lia). apply lookup_insert_eq.
  - rewrite !lookup_insert_ne by (done || lia). apply lookup_insert_eq.
  - rewrite !lookup_insert_ne by (done || lia). apply lookup_insert_eq.
Qed.

(** ** Write-once columns *)

Lemma np_where_from_length {A} (cond : A → bool) (k : nat) (a : list A) :
  (length (np_where_from cond k a) ≤ length a)%nat.
Proof.
  revert k. induction a as [|x a IH]; intros k; simpl; [done|].
  specialize (IH (S k)). destruct (cond x); simpl; lia.
Qed.

Lemma np_where_from_full {A} (cond : A → bool) (k : nat) (a : list A) :
  length (np_where_from cond k a) = length a → Forall (λ x, cond x = true) a.
Proof.
  revert k. induction a as [|x a IH]; intros k; simpl; [by constructor|].
  pose proof (np_where_from_length cond (S k) a) as Hle.
  destruct (cond x) eqn:Hx; simpl; intros Hlen.
  - constructor; [done|]. apply (IH (S k)). lia.
  - lia.
Qed.

Lemma getvardata_length pset var indices col :
  getvardata pset var indices = Some col → length col = length indices.
Proof.
  unfold getvardata. destruct (_data pset !! var) as [a|]; [|done]. simpl.
  apply take_idx_length.
Qed.

Lemma elem_of_dict_set_other {V} (k k' : string) (v v' : V) (d : list (string * V)) :
  k ≠ k' → (k, v) ∈ d → (k, v) ∈ dict_set k' v' d.
Proof.
  intros Hne. induction d as [|[k0 v0] d IH]; simpl; [by intros ?%elem_of_nil|].
  intros [[= <- <-]|Hin]%elem_of_cons.
  - rewrite (proj2 (String.eqb_neq k k')) by done. by apply elem_of_cons; left.
  - case_match; apply elem_of_cons; right; [done|by apply IH].
Qed.

Lemma elem_of_dict_set_same {V} (k : string) (v : V) (d : list (string * V)) :
  (k, v) ∈ dict_set k v d.
Proof.
  induction d as [|[k0 v0] d IH]; simpl; [by apply list_elem_of_singleton|].
  case_match; apply elem_of_cons; [by left|by right].
Qed.

(** A column already in [dfdict] stays, unless a later variable is
    written under the same name. *)
Lemma fill_dfdict_keeps self pset vars idx idx_once acc dfdict (k : string) (col : list Z) :
  fill_dfdict self pset vars idx idx_once acc = Some dfdict →
  k ∉ _convert_varout_name <$> vars →
  (k, col) ∈ acc → (k, col) ∈ dfdict.
Proof.
  revert acc. induction vars as [|var vars IH]; intros acc; simpl.
  - by intros [= <-].
  - intros Hfill Hk Hin. apply not_elem_of_cons in Hk as [Hne Hk].
    destruct (String.eqb _ "trajectory"); [by eapply IH|].
    destruct (write_once self var) as [once|]; [|done]. simpl in Hfill.
    destruct (getvardata pset var _) as [col'|]; [|done]. simpl in Hfill.
    eapply IH; [done..|]. by apply elem_of_dict_set_other.
Qed.

(** Lines 264-267: a write-once variable is fetched for the particles not
    yet written once, any other variable for all the selected ones. *)
Lemma fill_dfdict_fetches self pset vars idx idx_once acc dfdict (var : string) :
  fill_dfdict self pset vars idx idx_once acc = Some dfdict →
  NoDup (_convert_varout_name <$> vars) →
  var ∈ vars → _convert_varout_name var ≠ "trajectory" →
  ∃ once col,
    write_once self var = Some once
    ∧ getvardata pset var (if once : bool then idx_once else idx) = Some col
    ∧ (_convert_varout_name var, col) ∈ dfdict.
Proof.
  revert acc. induction vars as [|var' vars IH]; intros acc; simpl.
  - by intros _ _ ?%elem_of_nil.
  - intros Hfill Hnd Hin Hout. apply NoDup_cons in Hnd as [Hfresh Hnd].
    apply elem_of_cons in Hin as [->|Hin].
    + rewrite (proj2 (String.eqb_neq _ _) Hout) in Hfill.
      destruct (write_once self var') as [once|]; [|done]. simpl in Hfill.
      destruct (getvardata pset var' _) as [col|] eqn:Hcol; [|done]. simpl in Hfill.
      exists once, col. split_and!; [done..|].
      eapply fill_dfdict_keeps; [done..|]. apply elem_of_dict_set_same.
    + destruct (String.eqb _ "trajectory"); [by eapply IH|].
      destruct (write_once self var') as [once'|]; [|done]. simpl in Hfill.
      destruct (getvardata pset var' _) as [col'|]; [|done]. simpl in Hfill.
      by eapply IH.
Qed.

Lemma maybe_repeat_length (col : list Z) (n : nat) :
  length (maybe_repeat col n) = n → length col = n ∨ length col = 1%nat.
Proof.
  unfold maybe_repeat. case_bool_decide as Hone; [|by left]. intros _. right. tauto.
Qed.

(** What [pd.DataFrame] means for [emit]: with a write-once variable
    among the variables to write, a chunk comes out only when the flag is
    unset for all the selected particles, or for just one of them - whose
    value pandas then repeats over all the rows. *)
Lemma emit_written_once_count self pset fs idx path df (var : string) (flags : list Z) :
  r_out (emit self pset fs idx) = Written path df →
  NoDup (_convert_varout_name <$> (vars_to_write self).*1) →
  var ∈ (vars_to_write self).*1 → _convert_varout_name var ≠ "trajectory" →
  write_once self var = Some true →
  getvardata pset "once_written" idx = Some flags →
  Forall (λ v, v = 0) flags
  ∨ length (np_where (λ v, v =? 0) flags) = 1%nat.
Proof.
  intros Hout Hnd Hvar Hvarout Honce Hflags.
  destruct (emit_emit_path self pset fs idx)
    as [| | | |pids ids flags' idx_once dfdict nf obs df' fs' Hpids Hids Hflags' Hidx_once
               Hdf Hnf Hobs Hframe Hfs]; try done.
  assert (flags' = flags) as -> by congruence.
  destruct (fill_dfdict_fetches _ _ _ _ _ _ _ var Hdf Hnd Hvar Hvarout)
    as (once & col & Honce' & Hcol & Hin).
  change (write_once (registered self pids) var) with (write_once self var) in Honce'.
  assert (once = true) as -> by congruence.
  apply pd_DataFrame_Some in Hframe as (_ & Hcols & Hlens).
  rewrite Hcols in Hlens. rewrite Forall_fmap in Hlens.
  eapply Forall_forall in Hlens; [|done]. simpl in Hlens.
  apply getvardata_length in Hcol, Hpids, Hflags.
  apply take_idx_length in Hidx_once, Hobs.
  apply mapM_Some, Forall2_length in Hids.
  rewrite length_zip_with in Hlens.
  apply maybe_repeat_length in Hlens as [Hfull|Hone].
  - left.
    assert (length (np_where (λ v, v =? 0) flags) = length flags) as Hall by lia.
    apply np_where_from_full in Hall.
    eapply Forall_impl; [done|]. intros v Hv. by apply Z.eqb_eq.
  - right. lia.
Qed.

(** * The claims *)

Section Claims.

Variable OperationCode_Delete : Z.
Variable _to_write_particles : gmap string (list Z) → Z → list nat.

#[local] Abbreviation write := (write OperationCode_Delete _to_write_particles).
#[local] Abbreviation run := (run OperationCode_Delete _to_write_particles).
#[local] Abbreviation resolve_deleted := (resolve_deleted OperationCode_Delete).
#[local] Abbreviation selected_pids :=
  (selected_pids OperationCode_Delete _to_write_particles).

(** A chunk can only come out of [emit]. *)
Lemma write_Written_emit self pset fs time deleted_only path df :
  r_out (write self pset fs time deleted_only) = Written path df →
  ∃ self' idx, write self pset fs time deleted_only = emit self' pset fs idx.
Proof.
  unfold write, write_indices, raise.
  repeat case_match; simpl; try done; eauto.
Qed.

Lemma gate_time_written self time deleted_only :
  lasttime_written self = Some time → gate self time deleted_only = false.
Proof.
  intros Hlast. unfold gate.
  by rewrite bool_decide_eq_false_2 by (by intros []).
Qed.

(** C7. With an empty population a call that passes the guard of line
    227 logs the warning and returns: the writer (registry, counters,
    chunk number, last written time), the collection and the file system
    are the ones before the call. *)
Theorem write_empty_population self pset fs time deleted_only :
  gate self time deleted_only = true →
  _ncount pset = 0%nat →
  write self pset fs time deleted_only
  = {| r_self := self; r_pset := pset; r_fs := fs; r_out := Warned time |}.
Proof.
  intros Hgate Hcount. unfold write. by rewrite Hgate, Hcount.
Qed.

(** C8. The index set of a call with [deleted_only]: [True] gives the
    indices of the particles whose state is [OperationCode.Delete]; an
    array whose entries are all zero or one - a mask, or an index array
    that lists no index above 1 - gives the indices at which it is one;
    an array with an entry of two or more (line 239) and a list of
    indices are taken as they are. *)
Theorem deleted_only_resolution pset (state : list Z) (a indices l : list nat) :
  getvardata_all pset "state" = Some state →
  Forall (λ x, x < 2)%nat a →
  Exists (λ x, 2 ≤ x)%nat indices →
  (∃ idx, resolve_deleted pset d_True = inr idx
          ∧ ∀ i, i ∈ idx ↔ state !! i = Some OperationCode_Delete)
  ∧ (∃ idx, resolve_deleted pset (d_ndarray a) = inr idx
            ∧ ∀ i, i ∈ idx ↔ a !! i = Some 1%nat)
  ∧ resolve_deleted pset (d_ndarray indices) = inr indices
  ∧ resolve_deleted pset (d_list l) = inr l.
Proof.
  intros Hstate Ha Hindices. split_and!.
  - eexists. split; [simpl; by rewrite Hstate|].
    intros i. rewrite elem_of_np_where. split.
    + intros (x & Hx & Heq). by apply Z.eqb_eq in Heq as ->.
    + intros Hi. exists OperationCode_Delete. split; [done|]. apply Z.eqb_refl.
  - eexists. split.
    + simpl. rewrite (proj2 (forallb_forall _ a)); [done|].
      intros x Hx%list_elem_of_In. eapply Forall_forall in Ha; [|done].
      by apply Nat.ltb_lt.
    + intros i. rewrite elem_of_np_where. split.
      * intros (x & Hx & Hne). rewrite Hx. f_equal.
        apply list_elem_of_lookup_2 in Hx as Hin.
        eapply Forall_forall in Ha; [|done]. simpl in Ha.
        destruct x as [|[|x]]; [done|done|lia].
      * intros Hi. by exists 1%nat.
  - simpl. destruct (forallb _ indices) eqn:Hall; [|done].
    rewrite forallb_forall in Hall.
    apply Exists_exists in Hindices as (x & Hx & Hle).
    apply list_elem_of_In, Hall, Nat.ltb_lt in Hx. lia.
  - done.
Qed.


(** C6, as amended. Each floating type is filled with not-a-number and
    each integer type with the largest value of that type; [np.bool_] is
    filled with the largest value of [np.int8], the type it is stored as.
    The table fills the [_FillValue] attributes; in a chunk every column
    is what was fetched from the collection. *)
Theorem fill_value_table (t : DType) reserved calendar origin self pset fs time
    deleted_only path df :
  r_out (write self pset fs time deleted_only) = Written path df →
  (is_floating t = true → fill_value_map t = nan)
  ∧ (∀ m, iinfo_max t = Some m → fill_value_map t = IntFill m)
  ∧ fill_value_map bool_ = IntFill 127
  ∧ iinfo_max int8 = Some 127
  ∧ fmt_map bool_ = fmt_map int8
  ∧ Forall (λ entry, ∀ v, ("_FillValue", a_fill v) ∈ entry.2 → ∃ t', v = fill_value_map t')
           (_create_variables_attribute_dict reserved calendar origin self)
  ∧ Forall (λ kv, fetched_from (r_pset (write self pset fs time deleted_only)) kv.2)
           (df_columns df).
Proof.
  intros Hout. split_and!.
  - by destruct t.
  - intros m. destruct t; simpl; intros [= <-]; done.
  - done.
  - done.
  - done.
  - apply attribute_fill_values.
  - destruct (write_Written_emit _ _ _ _ _ _ _ Hout) as (self' & idx & Heq).
    rewrite Heq in Hout |- *. by eapply emit_columns_fetched.
Qed.

(** C3, as amended. The guard of line 227 compares the time before it
    looks at [deleted_only]: a call with a deletion subset at the time of
    the last periodic write is skipped and changes nothing; at any other
    time, with particles in the collection and a subset that is not
    empty, it goes on to emit the chunk of that subset (and does not
    record the time). *)
Theorem deletion_write_time_guard self pset fs time deleted_only idx :
  is_not_False deleted_only = true →
  resolve_deleted pset deleted_only = inr idx →
  idx ≠ [] →
  _ncount pset ≠ 0%nat →
  (lasttime_written self = Some time →
   write self pset fs time deleted_only
   = {| r_self := self; r_pset := pset; r_fs := fs; r_out := Skipped |})
  ∧ (lasttime_written self ≠ Some time →
     write self pset fs time deleted_only = emit self pset fs idx
     ∧ r_out (write self pset fs time deleted_only) ≠ Skipped
     ∧ lasttime_written (r_self (write self pset fs time deleted_only))
       = lasttime_written self).
Proof.
  intros Hdel Hidx Hne Hcount. split.
  - intros Hlast. unfold write. by rewrite gate_time_written.
  - intros Hlast.
    assert (write self pset fs time deleted_only = emit self pset fs idx) as ->.
    { unfold write, gate, write_indices. rewrite Hdel, Hidx, orb_true_r.
      rewrite bool_decide_eq_true_2 by done. simpl.
      destruct (Nat.eqb_spec (_ncount pset) 0) as [|_]; [done|].
      rewrite bool_decide_eq_true_2; [done|]. destruct idx; [done|simpl; lia]. }
    split_and!; [done| |apply emit_lasttime_written].
    destruct (emit_out self pset fs idx) as [(p & df & ->)|(e & ->)]; done.
Qed.

(** C5, as amended. In periodic mode, two calls without deletion subset
    at the same time emit at most one chunk.  When the collection of the
    first call is not empty, or the time is already the last written
    time, the first call leaves that time as the last written time and
    the second call is skipped and changes nothing; with an empty
    collection the first call records no time. *)
Theorem periodic_write_twice self pset1 pset2 fs time :
  write_ondelete self = false →
  let r1 := write self pset1 fs time d_False in
  let r2 := write (r_self r1) pset2 (r_fs r1) time d_False in
  (length (chunk_of (r_out r1) ++ chunk_of (r_out r2)) ≤ 1)%nat
  ∧ (_ncount pset1 ≠ 0%nat ∨ lasttime_written self = Some time →
     lasttime_written (r_self r1) = Some time
     ∧ r2 = {| r_self := r_self r1; r_pset := pset2; r_fs := r_fs r1; r_out := Skipped |})
  ∧ (_ncount pset1 = 0%nat →
     lasttime_written (r_self r1) = lasttime_written self).
Proof.
  intros Hmode r1 r2.
  assert (_ncount pset1 ≠ 0%nat ∨ lasttime_written self = Some time →
          lasttime_written (r_self r1) = Some time) as Hrec.
  { intros Hcase. subst r1. unfold write, gate, write_indices. rewrite Hmode. simpl.
    rewrite andb_true_r. case_bool_decide as Hlast.
    - destruct Hcase as [Hcount|?]; [|done].
      destruct (Nat.eqb_spec (_ncount pset1) 0) as [|_]; [done|].
      case_bool_decide; [|done]. by rewrite emit_lasttime_written.
    - done. }
  assert (lasttime_written (r_self r1) = Some time →
          r2 = {| r_self := r_self r1; r_pset := pset2; r_fs := r_fs r1;
                  r_out := Skipped |}) as Hskip.
  { intros Hlast. subst r2. unfold write. by rewrite gate_time_written. }
  split_and!.
  - rewrite length_app.
    destruct (decide (_ncount pset1 ≠ 0%nat ∨ lasttime_written self = Some time))
      as [Hcase|Hcase].
    + rewrite (Hskip (Hrec Hcase)). cbn [r_out chunk_of length].
      pose proof (chunk_of_length (r_out r1)). lia.
    + assert (r_out r1 = Warned time) as ->.
      { subst r1. unfold write, gate. rewrite Hmode. simpl. rewrite andb_true_r.
        rewrite bool_decide_eq_true_2 by tauto.
        destruct (Nat.eqb_spec (_ncount pset1) 0) as [|?]; [done|tauto]. }
      pose proof (chunk_of_length (r_out r2)). simpl. lia.
  - intros Hcase. split; [by apply Hrec|by apply Hskip, Hrec].
  - intros Hcount. subst r1. unfold write. rewrite Hcount. by case_match.
Qed.

(** C4. The registry is a bijection between the registered identities
    and the indices below [maxids], and stays one.  In one batch the
    identities seen for the first time, in ascending order, get the
    indices [maxids], [maxids + 1], ...; an identity, once registered,
    has the same index after any further calls.  First batch [A], [B],
    [C] (ascending): 0, 1, 2; a later batch with a new [D] and [B] again:
    [D] gets 3, [B] keeps 1. *)
Theorem local_index_assignment self pset fs idx pids calls fs'
    (A B C D : Z) (pids1 pids2 : list Z) :
  registry_ok (pids_written self) (maxids self) →
  getvardata pset "id" idx = Some pids →
  A < B → B < C → D ∉ [A; B; C] →
  (∀ p, p ∈ pids1 ↔ p ∈ [A; B; C]) →
  (∀ p, p ∈ pids2 ↔ p ∈ [D; B]) →
  let new := to_add_of (pids_written self) pids in
  let self' := r_self (emit self pset fs idx) in
  (* the batch of line 248 *)
  (∀ p, p ∈ new ↔ p ∈ pids ∧ pids_written self !! p = None)
  ∧ (∀ i j p q, (i < j)%nat → new !! i = Some p → new !! j = Some q → p < q)
  (* lines 249-252 *)
  ∧ pids_written self' = register (pids_written self) (maxids self) new
  ∧ (∀ j p, new !! j = Some p → pids_written self' !! p = Some (maxids self + j)%nat)
  ∧ maxids self' = (maxids self + length new)%nat
  ∧ (∀ p, p ∈ pids → is_Some (pids_written self' !! p))
  (* a bijection, for good *)
  ∧ registry_ok (pids_written self') (maxids self')
  ∧ registry_ok (pids_written (run self' fs' calls).1.1) (maxids (run self' fs' calls).1.1)
  ∧ (∀ p i, pids_written self !! p = Some i →
            pids_written self' !! p = Some i
            ∧ pids_written (run self' fs' calls).1.1 !! p = Some i)
  (* the example *)
  ∧ (let pw1 := register ∅ 0 (to_add_of ∅ pids1) in
     let pw2 := register pw1 (size pw1) (to_add_of pw1 pids2) in
     (pw1 !! A = Some 0 ∧ pw1 !! B = Some 1 ∧ pw1 !! C = Some 2)%nat
     ∧ size pw1 = 3%nat
     ∧ (pw2 !! D = Some 3 ∧ pw2 !! B = Some 1 ∧ pw2 !! A = Some 0
        ∧ pw2 !! C = Some 2)%nat).
Proof.
  intros Hreg Hpids HAB HBC HD H1 H2 new self'.
  destruct (emit_registry self pset fs idx pids Hpids) as [Hpw Hmax].
  fold self' new in Hpw, Hmax.
  pose proof (emit_registry_ok self pset fs idx Hreg) as Hreg'. fold self' in Hreg'.
  split_and!.
  - intros p. apply elem_of_to_add_of.
  - apply to_add_of_ascending.
  - done.
  - intros j p Hj. rewrite Hpw. apply register_lookup_new; [apply NoDup_to_add_of|done].
  - rewrite Hmax, Hpw. unfold new. rewrite register_size.
    by rewrite <- (reg_size _ _ Hreg).
  - intros p Hp. rewrite Hpw. by apply register_covers.
  - done.
  - by apply run_registry_ok.
  - intros p i Hp.
    assert (pids_written self' !! p = Some i) as Hp' by (by apply emit_keeps).
    split; [done|]. by apply run_keeps.
  - by apply register_example.
Qed.

(** C1. Under a writer as constructed, whatever calls are made, the
    observation indices of the rows emitted for one identity are, chunk
    after chunk, 0, 1, 2, ... up to its counter, whatever other
    identities are written in between; and a call that emits a chunk
    numbers each row with the counter of its identity, adds one to the
    counter of each identity in the chunk and leaves the other counters
    as they are.  An identity is selected at most once by a call. *)
Theorem observation_indices MPI fs0 name particleset wo self0 calls
    pset fs time deleted_only path df (p : Z) :
  i_self (__init__ MPI fs0 name particleset wo) = inr self0 →
  Forall (λ c, ∀ pids, selected_pids c = Some pids → NoDup pids) calls →
  let self := (run self0 (i_fs (__init__ MPI fs0 name particleset wo)) calls).1.1 in
  let chunks := (run self0 (i_fs (__init__ MPI fs0 name particleset wo)) calls).2 in
  obs_of p chunks = seq 0 (counter self p)
  ∧ (r_out (write self pset fs time deleted_only) = Written path df →
     Forall (λ row, row.2 = counter self row.1) (df_index df)
     ∧ ∀ q, counter (r_self (write self pset fs time deleted_only)) q
            = (counter self q + if bool_decide (q ∈ (df_index df).*1) then 1 else 0)%nat).
Proof.
  intros Hinit Hwf self chunks.
  pose proof (init_writer_ok _ _ _ _ _ _ Hinit) as Hok0.
  destruct (run_counters OperationCode_Delete _to_write_particles self0
              (i_fs (__init__ MPI fs0 name particleset wo)) calls p Hok0 Hwf)
    as (n & Hobs & Hcount).
  fold self chunks in Hobs, Hcount.
  rewrite (init_counter _ _ _ _ _ _ p Hinit) in Hobs, Hcount.
  split; [by rewrite Hobs, Hcount|]. intros Hout.
  assert (writer_ok self) as Hok by (by apply run_writer_ok).
  destruct (write_step OperationCode_Delete _to_write_particles self pset fs time
              deleted_only Hok) as [_ Hstep].
  unfold counters_step in Hstep. rewrite Hout in Hstep.
  by destruct Hstep as (_ & Hrows & Hstep).
Qed.
End Claims.

(** * The claims on the small simulation *)

(** The constructor returns the writers of the scenario. *)
Lemma scenario_init :
  i_self Scenario.init = inr Scenario.writer
  ∧ i_self Scenario.init_plain = inr Scenario.writer_plain.
Proof. split; reflexivity. Qed.

(** The end-to-end scenario of the specification: chunk 0 with
    observation index 0 for both identities, no chunk for the repeated
    time, chunk 1 with observation index 1 for identities 1 and 2 and 0
    for the new identity 3, which gets local index 2. *)
Example end_to_end_scenario :
  (Scenario.run Scenario.writer_plain (i_fs Scenario.init_plain) Scenario.calls).2
  = [ {| df_index := [(1, 0%nat); (2, 0%nat)]; df_columns := [("lon", [10; 20])] |};
      {| df_index := [(1, 1%nat); (2, 1%nat); (3, 0%nat)];
         df_columns := [("lon", [11; 21; 31])] |} ]
  ∧ pids_written
      (Scenario.run Scenario.writer_plain (i_fs Scenario.init_plain) Scenario.calls).1.1
    !! 3 = Some 2%nat.
Proof. split; vm_compute; reflexivity. Qed.

(** The on-deletion scenario of the specification: the two calls without
    deletion subset are skipped and record no time, the call with the
    deletion subset emits one chunk with the row of identity 2. *)
Example on_deletion_scenario :
  (Scenario.run Scenario.writer_ondelete (i_fs Scenario.init_plain)
     Scenario.calls_ondelete).2
  = [ {| df_index := [(2, 0%nat)]; df_columns := [("lon", [20])] |} ]
  ∧ lasttime_written
      (Scenario.run Scenario.writer_ondelete (i_fs Scenario.init_plain)
         Scenario.calls_ondelete).1.1 = None.
Proof. split; vm_compute; reflexivity. Qed.

(** C2. With a write-once variable the second write of a particle
    fetches that variable for no particle, the other variable for both,
    and [pd.DataFrame] raises on the columns of different length: no
    second chunk is persisted. *)
Theorem write_once_second_write_raises :
  r_out Scenario.first
  = Written "out.parquet/p000.parquet"
      {| df_index := [(1, 0%nat); (2, 0%nat)];
         df_columns := [("lon", [10; 20]); ("age0", [7; 8])] |}
  ∧ getvardata (r_pset Scenario.first) "once_written" [0%nat; 1%nat] = Some [1; 1]
  ∧ fill_dfdict (r_self Scenario.first) (r_pset Scenario.first)
      ["id"; "lon"; "age0"] [0%nat; 1%nat] [] []
    = Some [("lon", [10; 20]); ("age0", [])]
  ∧ r_out Scenario.second = Raised ValueError
  ∧ r_fs Scenario.second = r_fs Scenario.first.
Proof. split_and!; vm_compute; reflexivity. Qed.

(** With two particles the second write of the pair does produce a chunk:
    the write-once column holds the one value of the particle selected
    for the first time, and the frame repeats it over both rows, so the
    first particle appears again with the other particle's value. *)
Example single_once_value_is_repeated :
  r_out Scenario.alone
  = Written "out.parquet/p000.parquet"
      {| df_index := [(1, 0%nat)]; df_columns := [("lon", [10]); ("age0", [7])] |}
  ∧ r_out Scenario.together
    = Written "out.parquet/p001.parquet"
        {| df_index := [(1, 1%nat); (2, 0%nat)];
           df_columns := [("lon", [10; 20]); ("age0", [8; 8])] |}
  ∧ r_out Scenario.late = Raised ValueError.
Proof. split_and!; vm_compute; reflexivity. Qed.

(** C10. The constructor resets the flags of the three particles, and the
    first particle, written alone, comes with its write-once variable;
    the second and the third particle are then selected for the first
    time together with the first one: the call raises after it has set
    their flags and stores no chunk, and so does every later call for
    the second or the third particle, whose write-once variable is never
    emitted. *)
Theorem first_selection_in_mixed_batch_raises :
  _data Scenario.pset_three !! "once_written" = Some [1; 1; 1]
  ∧ i_self Scenario.init_three = inr Scenario.writer
  ∧ _data (i_pset Scenario.init_three) !! "once_written" = Some [0; 0; 0]
  ∧ r_out Scenario.alone_of_three
    = Written "out.parquet/p000.parquet"
        {| df_index := [(1, 0%nat)]; df_columns := [("lon", [10]); ("age0", [7])] |}
  ∧ _data (r_pset Scenario.alone_of_three) !! "once_written" = Some [1; 0; 0]
  ∧ r_out Scenario.all_three = Raised ValueError
  ∧ _data (r_pset Scenario.all_three) !! "once_written" = Some [1; 1; 1]
  ∧ r_out Scenario.second_of_three = Raised ValueError
  ∧ r_out Scenario.third_of_three = Raised ValueError
  ∧ r_fs Scenario.third_of_three = r_fs Scenario.alone_of_three.
Proof. split_and!; vm_compute; reflexivity. Qed.

(** C8, as stated, fails: the index array [np.array([1])], which lists
    the second particle, is read as a mask and selects the first, where
    the list [[1]] selects the second; the chunk of the call is the
    first particle's. *)
Lemma index_array_of_ones_read_as_mask :
  resolve_deleted Scenario.Delete (i_pset Scenario.init_plain) (d_ndarray [1%nat])
  = inr [0%nat]
  ∧ resolve_deleted Scenario.Delete (i_pset Scenario.init_plain) (d_ndarray [1%nat])
    ≠ inr [1%nat]
  ∧ resolve_deleted Scenario.Delete (i_pset Scenario.init_plain) (d_list [1%nat])
    = inr [1%nat]
  ∧ r_out (Scenario.write Scenario.writer_plain (i_pset Scenario.init_plain)
             (i_fs Scenario.init_plain) 0 (d_ndarray [1%nat]))
    = Written "out.parquet/p000.parquet"
        {| df_index := [(1, 0%nat)]; df_columns := [("lon", [10])] |}
  ∧ r_out (Scenario.write Scenario.writer_plain (i_pset Scenario.init_plain)
             (i_fs Scenario.init_plain) 0 (d_list [1%nat]))
    = Written "out.parquet/p000.parquet"
        {| df_index := [(2, 0%nat)]; df_columns := [("lon", [20])] |}.
Proof. split_and!; try (vm_compute; reflexivity). vm_compute. discriminate. Qed.

(** C3, as stated, fails: after the periodic write at time 5 a deletion
    write at time 5 for the first particle is skipped. *)
Lemma deletion_write_skipped_at_written_time :
  lasttime_written (r_self Scenario.periodic5) = Some 5
  ∧ resolve_deleted Scenario.Delete (r_pset Scenario.periodic5) (d_list [0%nat])
    = inr [0%nat]
  ∧ Scenario.deletion5
    = {| r_self := r_self Scenario.periodic5; r_pset := r_pset Scenario.periodic5;
         r_fs := r_fs Scenario.periodic5; r_out := Skipped |}.
Proof. split_and!; vm_compute; reflexivity. Qed.

(** C5, as stated, fails: with an empty collection the first call in
    periodic mode does not record its time. *)
Lemma periodic_write_empty_records_no_time :
  write_ondelete Scenario.writer = false
  ∧ lasttime_written
      (r_self (Scenario.write Scenario.writer Scenario.pset_empty Scenario.fs_old 0 d_False))
    ≠ Some 0.
Proof. split; [reflexivity|]. vm_compute. discriminate. Qed.

(** C6, as stated, fails: the fill value of [np.bool_] is not the largest
    value of [np.bool_]. *)
Lemma fill_value_bool_not_own_maximum : ¬ fills_own_maximum bool_.
Proof. intros (m & [= <-] & Hfill). vm_compute in Hfill. discriminate. Qed.

(** ** The theorems at work on the simulation *)

Lemma write_empty_population_witness :
  Scenario.write Scenario.writer Scenario.pset_empty Scenario.fs_old 0 d_False
  = {| r_self := Scenario.writer; r_pset := Scenario.pset_empty;
       r_fs := Scenario.fs_old; r_out := Warned 0 |}.
Proof.
  apply (write_empty_population Scenario.Delete Scenario.due_all); reflexivity.
Defined.

Lemma deleted_only_resolution_witness :
  (∃ idx, resolve_deleted Scenario.Delete Scenario.pset_deleted d_True = inr idx
          ∧ ∀ i, i ∈ idx ↔ [0; 3] !! i = Some Scenario.Delete)
  ∧ (∃ idx, resolve_deleted Scenario.Delete Scenario.pset_deleted
              (d_ndarray [0; 1; 1]%nat) = inr idx
            ∧ ∀ i, i ∈ idx ↔ [0; 1; 1]%nat !! i = Some 1%nat)
  ∧ resolve_deleted Scenario.Delete Scenario.pset_deleted (d_ndarray [0; 2]%nat)
    = inr [0; 2]%nat
  ∧ resolve_deleted Scenario.Delete Scenario.pset_deleted (d_list [1%nat])
    = inr [1%nat].
Proof.
  apply (deleted_only_resolution Scenario.Delete Scenario.pset_deleted
           [0; 3] [0; 1; 1]%nat [0; 2]%nat [1%nat]).
  - reflexivity.
  - repeat constructor.
  - apply Exists_cons_tl, Exists_cons_hd. lia.
Defined.


Lemma fill_value_table_witness :
  fill_value_map float32 = nan
  ∧ fill_value_map int16 = IntFill 32767
  ∧ Forall (λ kv, fetched_from (r_pset Scenario.first) kv.2)
           [("lon", [10; 20]); ("age0", [7; 8])].
Proof.
  destruct (fill_value_table Scenario.Delete Scenario.due_all int16 [] None ""
              Scenario.writer (i_pset Scenario.init) (i_fs Scenario.init) 0 d_False
              "out.parquet/p000.parquet"
              {| df_index := [(1, 0%nat); (2, 0%nat)];
                 df_columns := [("lon", [10; 20]); ("age0", [7; 8])] |} eq_refl)
    as (_ & Hint & _ & _ & _ & _ & Hcols).
  destruct (fill_value_table Scenario.Delete Scenario.due_all float32 [] None ""
              Scenario.writer (i_pset Scenario.init) (i_fs Scenario.init) 0 d_False
              "out.parquet/p000.parquet"
              {| df_index := [(1, 0%nat); (2, 0%nat)];
                 df_columns := [("lon", [10; 20]); ("age0", [7; 8])] |} eq_refl)
    as (Hfloat & _).
  split; [exact (Hfloat eq_refl)|]. split; [exact (Hint 32767 eq_refl)|exact Hcols].
Defined.

Lemma deletion_write_time_guard_witness :
  Scenario.write (r_self Scenario.periodic5) (r_pset Scenario.periodic5)
    (r_fs Scenario.periodic5) 5 (d_list [0%nat])
  = {| r_self := r_self Scenario.periodic5; r_pset := r_pset Scenario.periodic5;
       r_fs := r_fs Scenario.periodic5; r_out := Skipped |}
  ∧ Scenario.write (r_self Scenario.periodic5) (r_pset Scenario.periodic5)
      (r_fs Scenario.periodic5) 6 (d_list [0%nat])
    = emit (r_self Scenario.periodic5) (r_pset Scenario.periodic5)
        (r_fs Scenario.periodic5) [0%nat].
Proof.
  split.
  - apply (deletion_write_time_guard Scenario.Delete Scenario.due_all
             (r_self Scenario.periodic5) (r_pset Scenario.periodic5)
             (r_fs Scenario.periodic5) 5 (d_list [0%nat]) [0%nat]);
      [reflexivity|reflexivity|discriminate|vm_compute; discriminate|reflexivity].
  - apply (deletion_write_time_guard Scenario.Delete Scenario.due_all
             (r_self Scenario.periodic5) (r_pset Scenario.periodic5)
             (r_fs Scenario.periodic5) 6 (d_list [0%nat]) [0%nat]);
      [reflexivity|reflexivity|discriminate|vm_compute; discriminate
      |vm_compute; discriminate].
Defined.

Lemma periodic_write_twice_witness :
  let r1 := Scenario.write Scenario.writer_plain (i_pset Scenario.init_plain)
              (i_fs Scenario.init_plain) 0 d_False in
  let r2 := Scenario.write (r_self r1) (i_pset Scenario.init_plain) (r_fs r1) 0 d_False in
  (length (chunk_of (r_out r1) ++ chunk_of (r_out r2)) ≤ 1)%nat
  ∧ lasttime_written (r_self r1) = Some 0
  ∧ r2 = {| r_self := r_self r1; r_pset := i_pset Scenario.init_plain;
            r_fs := r_fs r1; r_out := Skipped |}.
Proof.
  intros r1 r2.
  destruct (periodic_write_twice Scenario.Delete Scenario.due_all Scenario.writer_plain
              (i_pset Scenario.init_plain) (i_pset Scenario.init_plain)
              (i_fs Scenario.init_plain) 0 eq_refl) as (Hone & Hrec & _).
  split; [exact Hone|]. apply Hrec. left. vm_compute. discriminate.
Defined.

Lemma local_index_assignment_witness :
  let self' := r_self (emit Scenario.writer_plain Scenario.pset3 Scenario.fs_old
                         [2; 0]%nat) in
  pids_written self' !! 1 = Some 0%nat
  ∧ pids_written self' !! 3 = Some 1%nat
  ∧ maxids self' = 2%nat
  ∧ registry_ok (pids_written (Scenario.run self' Scenario.fs_old Scenario.calls).1.1)
                (maxids (Scenario.run self' Scenario.fs_old Scenario.calls).1.1).
Proof.
  intros self'.
  pose proof (local_index_assignment Scenario.Delete Scenario.due_all
                Scenario.writer_plain Scenario.pset3 Scenario.fs_old [2; 0]%nat [3; 1]
                Scenario.calls Scenario.fs_old 1 2 3 4 [3; 1; 2] [4; 2]
                registry_ok_empty eq_refl) as Hthm.
  cbv zeta in Hthm. fold self' in Hthm.
  destruct Hthm as (_ & _ & _ & Hnew & Hmax & _ & _ & Hrun & _).
  - lia.
  - lia.
  - set_solver.
  - set_solver.
  - set_solver.
  - split; [exact (Hnew 0%nat 1 eq_refl)|].
    split; [exact (Hnew 1%nat 3 eq_refl)|].
    split; [exact Hmax|exact Hrun].
Defined.

Lemma observation_indices_witness :
  let self := (Scenario.run Scenario.writer_plain (i_fs Scenario.init_plain)
                 Scenario.calls).1.1 in
  let chunks := (Scenario.run Scenario.writer_plain (i_fs Scenario.init_plain)
                   Scenario.calls).2 in
  obs_of 1 chunks = seq 0 (counter self 1)
  ∧ counter (r_self (Scenario.write self Scenario.pset3 (i_fs Scenario.init_plain) 2
                       (d_list [2%nat]))) 3
    = (counter self 3 + 1)%nat.
Proof.
  intros self chunks.
  destruct (observation_indices Scenario.Delete Scenario.due_all None Scenario.fs_old
              "out.parquet" Scenario.pset_plain false Scenario.writer_plain
              Scenario.calls Scenario.pset3 (i_fs Scenario.init_plain) 2 (d_list [2%nat])
              "out.parquet/p002.parquet"
              {| df_index := [(3, 1%nat)]; df_columns := [("lon", [31])] |} 1)
    as [Hobs Hstep].
  - reflexivity.
  - repeat constructor; intros pids Hpids; vm_compute in Hpids;
      injection Hpids as <-; apply (bool_decide_unpack _); vm_compute; exact I.
  - split; [exact Hobs|].
    destruct (Hstep eq_refl) as [_ Hcount]. exact (Hcount 3).
Defined.

(** * More properties of the module *)

(** ** Chunk file names *)

Lemma concat_zeros_S (k : nat) :
  String.concat "" (replicate (S k) "0") = String "0" (String.concat "" (replicate k "0")).
Proof. by destruct k. Qed.

Lemma digits_value_pad (k : nat) (s : string) (n : nat) :
  digits_value s = Some n →
  digits_value (String.concat "" (replicate k "0") ++ s) = Some n.
Proof.
  intros Hs. induction k as [|k IH]; [done|].
  rewrite concat_zeros_S. unfold digits_value in *. simpl.
  destruct (NilEmpty.uint_of_string (_ ++ s)) as [d|]; [|done].
  simpl in *. by injection IH as <-.
Qed.

Lemma digits_value_fmt_03d (n : nat) : digits_value (fmt_03d n) = Some n.
Proof.
  unfold fmt_03d. apply digits_value_pad. unfold digits_value, NilZero.string_of_uint.
  destruct (Nat.to_uint n) as [|d|d|d|d|d|d|d|d|d|d] eqn:Hd;
    rewrite <- ?Hd, ?NilEmpty.usu; simpl; f_equal;
    try apply DecimalNat.Unsigned.of_to.
  rewrite <- (DecimalNat.Unsigned.of_to n), Hd. done.
Qed.

(** Distinct chunk numbers give distinct file names. *)
Lemma fmt_03d_inj (n m : nat) : fmt_03d n = fmt_03d m → n = m.
Proof.
  intros Heq. pose proof (digits_value_fmt_03d n) as Hn.
  rewrite Heq, digits_value_fmt_03d in Hn. congruence.
Qed.

Lemma list_ascii_of_string_app (a s : string) :
  list_ascii_of_string (a ++ s)
  = (list_ascii_of_string a ++ list_ascii_of_string s)%list.
Proof. induction a as [|c a IH]; simpl; [done|by rewrite IH]. Qed.

Lemma append_suffix_inj (a b s : string) : a ++ s = b ++ s → a = b.
Proof.
  intros Heq%(f_equal list_ascii_of_string).
  rewrite !list_ascii_of_string_app in Heq. apply app_inv_tail in Heq.
  apply (f_equal string_of_list_ascii) in Heq.
  by rewrite !string_of_list_ascii_of_string in Heq.
Qed.

Lemma chunk_file_inj (n m : nat) : chunk_file n = chunk_file m → n = m.
Proof.
  unfold chunk_file. intros [= Heq]. by apply fmt_03d_inj, (append_suffix_inj _ _ ".parquet").
Qed.

Lemma dict_set_fresh {V} (k : string) (v : V) (d : list (string * V)) :
  k ∉ d.*1 → dict_set k v d = (d ++ [(k, v)])%list.
Proof.
  induction d as [|[k' v'] d IH]; [done|]. simpl.
  intros [Hne Hk]%not_elem_of_cons.
  rewrite (proj2 (String.eqb_neq k' k)) by done. by rewrite IH.
Qed.

Lemma dict_get_dict_set {V} (k : string) (v : V) (d : list (string * V)) :
  dict_get k (dict_set k v d) = Some v.
Proof.
  induction d as [|[k' v'] d IH]; simpl; [by rewrite String.eqb_refl|].
  destruct (String.eqb_spec k' k) as [->|Hne]; simpl.
  - by rewrite String.eqb_refl.
  - by rewrite (proj2 (String.eqb_neq k' k)).
Qed.

Lemma dict_get_dict_set_ne {V} (k k' : string) (v : V) (d : list (string * V)) :
  k' ≠ k → dict_get k' (dict_set k v d) = dict_get k' d.
Proof.
  intros Hne. induction d as [|[k0 v0] d IH]; simpl.
  - by rewrite (proj2 (String.eqb_neq k k')).
  - destruct (String.eqb_spec k0 k) as [->|Hne0]; simpl.
    + by rewrite (proj2 (String.eqb_neq k k')).
    + by rewrite IH.
Qed.

Lemma chunk_files_snoc (chunks : list DataFrame) (df : DataFrame) :
  chunk_files (chunks ++ [df])
  = (chunk_files chunks ++ [(chunk_file (length chunks), df)])%list.
Proof.
  unfold chunk_files. rewrite imap_app. simpl. by rewrite Nat.add_0_r.
Qed.

Lemma chunk_file_fresh (chunks : list DataFrame) :
  chunk_file (length chunks) ∉ (chunk_files chunks).*1.
Proof.
  unfold chunk_files. rewrite list_elem_of_fmap. intros ([file df] & Hfile & Hin).
  apply elem_of_lookup_imap in Hin as (i & df' & Heq & Hi).
  injection Heq as -> ->. simpl in Hfile.
  apply chunk_file_inj in Hfile. apply lookup_lt_Some in Hi. lia.
Qed.

(** ** What a call does to the output folder *)

Lemma to_parquet_Some fs folder file df fs' :
  to_parquet fs folder file df = Some fs' →
  ∃ children, fs !! folder = Some (Dir children)
              ∧ fs' = <[folder := Dir (dict_set file df children)]> fs.
Proof.
  unfold to_parquet. destruct (fs !! folder) as [[?|children]|]; try done.
  intros [= <-]. by eexists.
Qed.

Lemma emit_fname self pset fs idx :
  fname (r_self (emit self pset fs idx)) = fname self.
Proof. by emit_cases. Qed.

(** A chunk is stored under the number of chunks written so far, which
    then goes up by one; a call that stores nothing leaves the file
    system as it is. *)
Lemma emit_fs self pset fs idx :
  match r_out (emit self pset fs idx) with
  | Written path df =>
      ∃ nf children,
        nfiles self = Some nf ∧ fs !! fname self = Some (Dir children)
        ∧ path = fname self ++ "/" ++ chunk_file nf
        ∧ nfiles (r_self (emit self pset fs idx)) = Some (S nf)
        ∧ r_fs (emit self pset fs idx)
          = <[fname self := Dir (dict_set (chunk_file nf) df children)]> fs
  | _ => r_fs (emit self pset fs idx) = fs
  end.
Proof.
  destruct (emit_emit_path self pset fs idx)
    as [| | | |pids ids flags idx_once dfdict nf obs df fs' Hpids Hids Hflags Honce Hdf
               Hnf Hobs Hframe Hfs]; try done.
  cbn [r_out r_fs r_self].
  apply to_parquet_Some in Hfs as (children & Hdir & ->).
  exists nf, children. by split_and!.
Qed.

(** With the output folder in place the chunk counter moves only when a
    chunk is stored. *)
Lemma emit_nfiles self pset fs idx children :
  fs !! fname self = Some (Dir children) →
  nfiles (r_self (emit self pset fs idx))
  = match r_out (emit self pset fs idx) with
    | Written _ _ => S <$> nfiles self
    | _ => nfiles self
    end.
Proof.
  intros Hdir. unfold emit, raise, to_parquet. rewrite Hdir.
  repeat case_match; simplify_eq/=; try done.
  match goal with H : nfiles self = Some _ |- _ => by rewrite H end.
Qed.

Section Extra.

Variable OperationCode_Delete : Z.
Variable _to_write_particles : gmap string (list Z) → Z → list nat.

#[local] Abbreviation write := (write OperationCode_Delete _to_write_particles).
#[local] Abbreviation run := (run OperationCode_Delete _to_write_particles).
#[local] Abbreviation resolve_deleted := (resolve_deleted OperationCode_Delete).

(** A call is a plain return, or [emit] on the writer with or without
    the time recorded. *)
Lemma write_cases self pset fs time deleted_only :
  (r_self (write self pset fs time deleted_only) = self
   ∧ r_pset (write self pset fs time deleted_only) = pset
   ∧ r_fs (write self pset fs time deleted_only) = fs
   ∧ ∀ path df, r_out (write self pset fs time deleted_only) ≠ Written path df)
  ∨ (r_self (write self pset fs time deleted_only)
       = set_lasttime_written self (Some time)
     ∧ r_pset (write self pset fs time deleted_only) = pset
     ∧ r_fs (write self pset fs time deleted_only) = fs
     ∧ r_out (write self pset fs time deleted_only) = Skipped)
  ∨ (∃ idx, write self pset fs time deleted_only = emit self pset fs idx)
  ∨ (∃ idx, write self pset fs time deleted_only
            = emit (set_lasttime_written self (Some time)) pset fs idx).
Proof.
  unfold write, write_indices, raise.
  repeat case_match; simpl; eauto 10.
Qed.

Lemma write_fname self pset fs time deleted_only :
  fname (r_self (write self pset fs time deleted_only)) = fname self.
Proof.
  destruct (write_cases self pset fs time deleted_only)
    as [(-> & _)|[(-> & _)|[[idx ->]|[idx ->]]]]; try done; by rewrite emit_fname.
Qed.

Lemma write_fs self pset fs time deleted_only :
  match r_out (write self pset fs time deleted_only) with
  | Written path df =>
      ∃ nf children,
        nfiles self = Some nf ∧ fs !! fname self = Some (Dir children)
        ∧ path = fname self ++ "/" ++ chunk_file nf
        ∧ nfiles (r_self (write self pset fs time deleted_only)) = Some (S nf)
        ∧ r_fs (write self pset fs time deleted_only)
          = <[fname self := Dir (dict_set (chunk_file nf) df children)]> fs
  | _ => r_fs (write self pset fs time deleted_only) = fs
  end.
Proof.
  destruct (write_cases self pset fs time deleted_only)
    as [(_ & _ & Hfs & Hout)|[(_ & _ & Hfs & ->)|[[idx ->]|[idx ->]]]]; try done.
  - destruct (r_out _); try done. by destruct (Hout path df).
  - apply emit_fs.
  - apply (emit_fs (set_lasttime_written self (Some time))).
Qed.

Lemma write_nfiles self pset fs time deleted_only children :
  fs !! fname self = Some (Dir children) →
  nfiles (r_self (write self pset fs time deleted_only))
  = match r_out (write self pset fs time deleted_only) with
    | Written _ _ => S <$> nfiles self
    | _ => nfiles self
    end.
Proof.
  intros Hdir.
  destruct (write_cases self pset fs time deleted_only)
    as [(-> & _ & _ & Hout)|[(-> & _ & _ & ->)|[[idx ->]|[idx ->]]]]; try done.
  - destruct (r_out _); try done. by destruct (Hout path df).
  - by eapply emit_nfiles.
  - by apply (emit_nfiles (set_lasttime_written self (Some time)) _ _ _ children).
Qed.

Lemma run_folder self fs calls (prior : list DataFrame) :
  fs !! fname self = Some (Dir (chunk_files prior)) →
  nfiles self = Some (length prior) →
  (run self fs calls).1.2 !! fname self
    = Some (Dir (chunk_files (prior ++ (run self fs calls).2)))
  ∧ nfiles (run self fs calls).1.1 = Some (length prior + length (run self fs calls).2)%nat
  ∧ fname (run self fs calls).1.1 = fname self
  ∧ ∀ other, other ≠ fname self → (run self fs calls).1.2 !! other = fs !! other.
Proof.
  revert self fs prior. induction calls as [|c calls IH]; intros self fs prior Hdir Hnf.
  - simpl. rewrite app_nil_r, Nat.add_0_r. by split_and!.
  - simpl.
    pose proof (write_fs self (c_pset c) fs (c_time c) (c_deleted_only c)) as Hfs.
    pose proof (write_nfiles self (c_pset c) fs (c_time c) (c_deleted_only c) _ Hdir)
      as Hnf'.
    pose proof (write_fname self (c_pset c) fs (c_time c) (c_deleted_only c)) as Hname.
    set (r := write self (c_pset c) fs (c_time c) (c_deleted_only c)) in *.
    pose proof (IH (r_self r) (r_fs r)) as IH'.
    destruct (run (r_self r) (r_fs r) calls) as [[self' fs'] chunks].
    cbn [fst snd] in *. rewrite Hname in IH'.
    assert (∀ prior',
      r_fs r !! fname self = Some (Dir (chunk_files prior')) →
      nfiles (r_self r) = Some (length prior') →
      (prior' ++ chunks)%list = (prior ++ chunk_of (r_out r) ++ chunks)%list →
      (∀ other, other ≠ fname self → r_fs r !! other = fs !! other) →
      fs' !! fname self = Some (Dir (chunk_files (prior ++ chunk_of (r_out r) ++ chunks)))
      ∧ nfiles self'
        = Some (length prior + length (chunk_of (r_out r) ++ chunks))%nat
      ∧ fname self' = fname self
      ∧ ∀ other, other ≠ fname self → fs' !! other = fs !! other) as Hstep.
    { intros prior' Hdir' Hnf'' Happ Hother.
      destruct (IH' prior' Hdir' Hnf'') as (Hd & Hn & Hf & Ho).
      rewrite Happ in Hd. split_and!; [done| |done|].
      - rewrite Hn. f_equal. rewrite <- !length_app. by rewrite Happ.
      - intros other Hne. by rewrite Ho, Hother. }
    destruct (r_out r) as [|t|path df|e] eqn:Hout.
    1,2,4: apply (Hstep prior); [by rewrite Hfs|by rewrite Hnf'|done|by rewrite Hfs].
    destruct Hfs as (nf & children & Hnf0 & Hdir0 & _ & Hnf1 & Hfs).
    assert (nf = length prior) as -> by congruence.
    assert (children = chunk_files prior) as -> by congruence.
    apply (Hstep (prior ++ [df])%list).
    + rewrite Hfs, lookup_insert_eq, dict_set_fresh by apply chunk_file_fresh.
      by rewrite chunk_files_snoc.
    + rewrite Hnf1, length_app. simpl. f_equal. lia.
    + by rewrite <- app_assoc.
    + intros other Hne. by rewrite Hfs, lookup_insert_ne.
Qed.

(** ** The constructor, single process and MPI *)

Lemma init_single_process MPI fs name particleset wo self :
  i_self (__init__ MPI fs name particleset wo) = inr self →
  single_process MPI →
  fname self = name ∧ nfiles self = Some 0%nat
  ∧ i_fs (__init__ MPI fs name particleset wo) !! name = Some (Dir []).
Proof.
  unfold __init__. intros Hself Hsingle.
  assert (match MPI with
          | Some (_, size) => bool_decide (1 < size)%nat
          | None => false
          end = false) as Hmpi.
  { destruct MPI as [[rank size]|]; [|done]. simpl in Hsingle.
    apply bool_decide_eq_false_2. lia. }
  rewrite Hmpi in Hself |- *.
  destruct (parquet_extension _); [|done].
  destruct (fs !! name) as [[df|children]|] eqn:Hdir; simplify_eq/=.
  - split_and!; [done..|by rewrite lookup_insert_eq].
  - split_and!; [done..|by rewrite lookup_insert_eq].
Qed.

Lemma emit_without_nfiles self pset fs idx :
  nfiles self = None →
  nfiles (r_self (emit self pset fs idx)) = None
  ∧ r_fs (emit self pset fs idx) = fs
  ∧ ((∃ e, r_out (emit self pset fs idx) = Raised e)).
Proof.
  intros Hnf.
  destruct (emit_emit_path self pset fs idx)
    as [Hpids|pids ids pset' e Hpids Hids|pids ids nf pset' e Hpids Hids Hnf'
       |pids ids nf pset' e Hpids Hids Hnf'
       |pids ids flags idx_once dfdict nf obs df fs' Hpids Hids Hflags Honce Hdf Hnf'];
    try congruence; simpl; eauto.
Qed.

(** Where [emit] ends when [nfiles] is not set: at one of the fetches, or
    at line 269. *)
Lemma emit_without_nfiles_raises self pset fs idx :
  nfiles self = None →
  r_out (emit self pset fs idx) = Raised AttributeError
  ∨ r_out (emit self pset fs idx) = Raised FetchError
  ∨ r_out (emit self pset fs idx) = Raised IndexError.
Proof.
  intros Hnf. unfold emit.
  destruct (getvardata pset "id" idx) as [pids|] eqn:Hpids; [|by eauto].
  cbv zeta.
  destruct (registered_covers self pids) as [ids Hids].
  change (mapM _ pids) with (mapM (λ p, pids_written (registered self pids) !! p) pids).
  rewrite Hids.
  destruct (getvardata pset "once_written" idx) as [flags|]; [|by eauto].
  destruct (take_idx ids _) as [ids_once|]; [|by eauto].
  destruct (take_idx idx _) as [idx_once|]; [|by eauto].
  destruct (fill_dfdict _ _ _ _ _ _) as [dfdict|]; [|by eauto].
  cbn [nfiles set_maxids set_pids_written]. rewrite Hnf. by eauto.
Qed.

Lemma write_without_nfiles self pset fs time deleted_only :
  nfiles self = None →
  nfiles (r_self (write self pset fs time deleted_only)) = None
  ∧ r_fs (write self pset fs time deleted_only) = fs
  ∧ chunk_of (r_out (write self pset fs time deleted_only)) = [].
Proof.
  intros Hnf.
  destruct (write_cases self pset fs time deleted_only)
    as [(-> & _ & -> & Hout)|[(-> & _ & -> & ->)|[[idx ->]|[idx ->]]]].
  - split_and!; [done..|]. destruct (r_out _); try done. by destruct (Hout path df).
  - done.
  - destruct (emit_without_nfiles self pset fs idx Hnf) as (? & ? & e & ->). done.
  - destruct (emit_without_nfiles (set_lasttime_written self (Some time)) pset fs idx Hnf)
      as (? & ? & e & ->). done.
Qed.

Lemma run_without_nfiles self fs calls :
  nfiles self = None →
  (run self fs calls).1.2 = fs ∧ (run self fs calls).2 = [].
Proof.
  revert self fs. induction calls as [|c calls IH]; intros self fs Hnf; [done|].
  simpl.
  destruct (write_without_nfiles self (c_pset c) fs (c_time c) (c_deleted_only c) Hnf)
    as (Hnf' & Hfs & Hout).
  specialize (IH _ (r_fs (write self (c_pset c) fs (c_time c) (c_deleted_only c))) Hnf').
  destruct (run _ _ calls) as [[self' fs'] chunks]. simpl in *.
  destruct IH as [-> ->]. by rewrite Hfs, Hout.
Qed.

(** X1. A call that emits a chunk stores it in the writer's folder as
    [p<number>.parquet], the number being that of the chunks written
    before, and reports that path; it changes no other file of the folder
    and no other path, and the chunk number goes up by one. *)
Theorem written_chunk_stored self pset fs time deleted_only path df :
  r_out (write self pset fs time deleted_only) = Written path df →
  ∃ nf children children',
    nfiles self = Some nf
    ∧ fs !! fname self = Some (Dir children)
    ∧ path = fname self ++ "/" ++ chunk_file nf
    ∧ nfiles (r_self (write self pset fs time deleted_only)) = Some (S nf)
    ∧ r_fs (write self pset fs time deleted_only) !! fname self = Some (Dir children')
    ∧ dict_get (chunk_file nf) children' = Some df
    ∧ (∀ file, file ≠ chunk_file nf → dict_get file children' = dict_get file children)
    ∧ ∀ other, other ≠ fname self →
        r_fs (write self pset fs time deleted_only) !! other = fs !! other.
Proof.
  intros Hout. pose proof (write_fs self pset fs time deleted_only) as Hfs.
  rewrite Hout in Hfs. destruct Hfs as (nf & children & Hnf & Hdir & -> & Hnf' & ->).
  exists nf, children, (dict_set (chunk_file nf) df children).
  split_and!; try done.
  - by rewrite lookup_insert_eq.
  - apply dict_get_dict_set.
  - intros file Hne. by apply dict_get_dict_set_ne.
  - intros other Hne. by rewrite lookup_insert_ne.
Qed.

(** X2. Under a writer constructed in single-process mode, after any
    sequence of calls the output folder holds exactly the emitted chunks,
    in emission order, chunk number [k] as [p<k>.parquet]: no chunk is
    lost or replaced by a later one.  The chunk counter is the number of
    emitted chunks. *)
Theorem folder_holds_emitted_chunks MPI fs0 name particleset wo self0 calls :
  i_self (__init__ MPI fs0 name particleset wo) = inr self0 →
  single_process MPI →
  let fs := i_fs (__init__ MPI fs0 name particleset wo) in
  (run self0 fs calls).1.2 !! name = Some (Dir (chunk_files (run self0 fs calls).2))
  ∧ nfiles (run self0 fs calls).1.1 = Some (length (run self0 fs calls).2).
Proof.
  intros Hself Hsingle fs.
  destruct (init_single_process _ _ _ _ _ _ Hself Hsingle) as (Hname & Hnf & Hdir).
  fold fs in Hdir. rewrite <- Hname in Hdir.
  destruct (run_folder self0 fs calls [] Hdir Hnf) as (Hdir' & Hnf' & _).
  by rewrite Hname in Hdir'.
Qed.

(** X3. With more than one MPI process the constructor names a file per
    process but creates no folder and does not set [nfiles]; whatever
    calls follow, none stores a chunk: a call that comes to line 269
    raises [AttributeError], and the file system stays as it was. *)
Theorem mpi_mode_never_emits rank size fs name particleset wo calls :
  (1 < size)%nat →
  parquet_extension (splitext_ext name) = true →
  ∃ self,
    i_self (__init__ (Some (rank, size)) fs name particleset wo) = inr self
    ∧ fname self = name ++ "/proc" ++ fmt_02d rank ++ ".parquet"
    ∧ nfiles self = None
    ∧ i_fs (__init__ (Some (rank, size)) fs name particleset wo) = fs
    ∧ (run self fs calls).2 = []
    ∧ (run self fs calls).1.2 = fs
    ∧ ∀ pset fs' idx,
        r_out (emit self pset fs' idx) = Raised AttributeError
        ∨ r_out (emit self pset fs' idx) = Raised FetchError
        ∨ r_out (emit self pset fs' idx) = Raised IndexError.
Proof.
  intros Hsize Hext. unfold __init__. rewrite Hext.
  rewrite bool_decide_eq_true_2 by done. eexists. split_and!; try done.
  - by apply run_without_nfiles.
  - by apply run_without_nfiles.
  - intros pset fs' idx. by apply emit_without_nfiles_raises.
Qed.

Lemma rfind_from_None (c : ascii) (k : nat) (p : list ascii) :
  c ∉ p → rfind_from c k p None = None.
Proof.
  revert k. induction p as [|x p IH]; intros k Hc; [done|]. simpl.
  apply not_elem_of_cons in Hc as [Hne Hc].
  rewrite (proj2 (Ascii.eqb_neq x c)) by done. by apply IH.
Qed.

(** X4. A name whose extension is not [.parquet], [.pqt] or [.parq] -
    any name without a dot, for one - makes the constructor raise
    [RuntimeError].  The file system is not touched, but the check comes
    after line 88: the once-written flags are reset all the same. *)
Theorem init_rejects_extension MPI fs name particleset wo :
  parquet_extension (splitext_ext name) = false
  ∨ "."%char ∉ list_ascii_of_string name →
  i_self (__init__ MPI fs name particleset wo) = inl RuntimeError
  ∧ i_fs (__init__ MPI fs name particleset wo) = fs
  ∧ i_pset (__init__ MPI fs name particleset wo)
    = setallvardata particleset "once_written" 0.
Proof.
  intros Hext.
  assert (parquet_extension (splitext_ext name) = false) as Hbad.
  { destruct Hext as [|Hdot]; [done|].
    unfold splitext_ext, rfind. by rewrite (rfind_from_None _ _ _ Hdot). }
  unfold __init__. by rewrite Hbad.
Qed.

(** Lines 82-84 as a lookup: the dtype of the last variable of that name
    that is marked to be written. *)
Lemma collect_vars_to_write_get (vars : list PVariable) (acc : list (string * DType))
    (n : string) :
  dict_get n (collect_vars_to_write vars acc)
  = match last (filter (λ v, name v = n ∧ truthy (to_write v) = true) vars) with
    | Some v => Some (dtype v)
    | None => dict_get n acc
    end.
Proof.
  revert acc. induction vars as [|v vars IH]; intros acc; [done|].
  simpl. rewrite IH, filter_cons.
  destruct (decide (name v = n ∧ truthy (to_write v) = true)) as [[Hn Hw]|Hno].
  - rewrite Hw, last_cons. subst n. destruct (last _); [done|].
    apply dict_get_dict_set.
  - destruct (last _) as [v'|]; [done|].
    destruct (truthy (to_write v)) eqn:Hv; [|done].
    rewrite dict_get_dict_set_ne; [done|]. intros ->. by apply Hno.
Qed.

Lemma dict_set_keys_NoDup {V} (k : string) (v : V) (d : list (string * V)) :
  NoDup d.*1 → NoDup (dict_set k v d).*1.
Proof.
  induction d as [|[k' v'] d IH]; simpl; [intros _; apply NoDup_singleton|].
  intros [Hk' Hd]%NoDup_cons.
  destruct (String.eqb_spec k' k) as [->|Hne]; simpl.
  - by apply NoDup_cons.
  - apply NoDup_cons. split; [|by apply IH].
    rewrite list_elem_of_fmap. intros ([k0 v0] & -> & Hin).
    apply elem_of_dict_set in Hin as [[= <- <-]|Hin]; [done|].
    apply Hk'. rewrite list_elem_of_fmap. by exists (k0, v0).
Qed.

Lemma collect_vars_to_write_NoDup (vars : list PVariable) (acc : list (string * DType)) :
  NoDup acc.*1 → NoDup (collect_vars_to_write vars acc).*1.
Proof.
  revert acc. induction vars as [|v vars IH]; intros acc Hacc; [done|].
  simpl. apply IH. destruct (truthy _); [by apply dict_set_keys_NoDup|done].
Qed.

(** X5. The constructor keeps, name to dtype, the variables of the
    particle type whose [to_write] is [True] or ['once'] - the write-once
    variables too - and no other: each name once, with the dtype of the
    last variable of that name that is to be written. *)
Theorem vars_to_write_of_schema MPI fs target particleset wo self (n : string) :
  i_self (__init__ MPI fs target particleset wo) = inr self →
  NoDup (vars_to_write self).*1
  ∧ ptype self = variables particleset
  ∧ dict_get n (vars_to_write self)
    = dtype <$> last (filter (λ v, name v = n ∧ truthy (to_write v) = true)
                             (variables particleset)).
Proof.
  intros Hself.
  assert (vars_to_write self = collect_vars_to_write (variables particleset) []
          ∧ ptype self = variables particleset) as [-> ->].
  { unfold __init__ in Hself. repeat case_match; by simplify_eq/=. }
  split_and!; [|done|].
  - apply collect_vars_to_write_NoDup, NoDup_nil_2.
  - rewrite collect_vars_to_write_get. by destruct (last _).
Qed.

(** ** The guards of [write] *)

(** X6. In on-deletion mode calls without deletion subset do nothing at
    all, however many and whatever the times and the collections: no
    chunk, no time recorded, writer and file system unchanged. *)
Theorem ondelete_without_subset_is_noop self fs calls :
  write_ondelete self = true →
  Forall (λ c, c_deleted_only c = d_False) calls →
  run self fs calls = (self, fs, []).
Proof.
  intros Hmode Hcalls. induction Hcalls as [|c calls Hc _ IH]; [done|].
  simpl. unfold write, gate. rewrite Hc, Hmode. simpl. rewrite andb_false_r.
  simpl. by rewrite IH.
Qed.

(** X7. A call that passes the guards but selects no particle emits
    nothing and leaves collection and file system alone.  With a deletion
    subset the writer is unchanged; without one the time is recorded all
    the same, so that a second call at that time is skipped even if
    particles are due by then. *)
Theorem empty_selection self pset pset' fs time deleted_only :
  gate self time deleted_only = true →
  _ncount pset ≠ 0%nat →
  (resolve_deleted pset deleted_only = inr [] →
   write self pset fs time deleted_only
   = {| r_self := self; r_pset := pset; r_fs := fs; r_out := Skipped |})
  ∧ (deleted_only = d_False →
     _to_write_particles (_data pset) time = [] →
     write self pset fs time deleted_only
     = {| r_self := set_lasttime_written self (Some time); r_pset := pset; r_fs := fs;
          r_out := Skipped |}
     ∧ write (set_lasttime_written self (Some time)) pset' fs time d_False
       = {| r_self := set_lasttime_written self (Some time); r_pset := pset';
            r_fs := fs; r_out := Skipped |}).
Proof.
  intros Hgate Hcount. split.
  - intros Hidx. unfold write. rewrite Hgate.
    destruct (Nat.eqb_spec (_ncount pset) 0) as [|_]; [done|].
    destruct (is_not_False deleted_only) eqn:Hdel; [by rewrite Hidx|].
    by destruct deleted_only.
  - intros -> Hidx. split.
    + unfold write. rewrite Hgate.
      destruct (Nat.eqb_spec (_ncount pset) 0) as [|_]; [done|].
      simpl. by rewrite Hidx.
    + unfold write. by rewrite gate_time_written.
Qed.

(** X8. A scalar [deleted_only] other than [False], [True] and [1] - for
    one, [0], which is not the object [False] - takes none of the
    branches of lines 233-241: [indices_to_write] is never assigned and
    the call raises at line 246, with nothing changed. *)
Theorem scalar_deleted_only_raises self pset fs time (v : Z) :
  v ≠ 1 →
  lasttime_written self ≠ Some time →
  _ncount pset ≠ 0%nat →
  write self pset fs time (d_scalar v)
  = {| r_self := self; r_pset := pset; r_fs := fs; r_out := Raised UnboundLocalError |}.
Proof.
  intros Hv Htime Hcount. unfold write, gate.
  rewrite bool_decide_eq_true_2 by done. simpl. rewrite orb_true_r.
  destruct (Nat.eqb_spec (_ncount pset) 0) as [|_]; [done|].
  by destruct (Z.eqb_spec v 1).
Qed.

(** X9. An [np.ndarray] is read as a mask whenever all its entries are 0
    or 1, and then never stands for the indices it lists: the index array
    [[1]] selects particle 0.  Only an array with an entry of 2 or more
    is taken as the index set it is. *)
Theorem ndarray_of_zeros_and_ones_is_a_mask pset (a : list nat) :
  a ≠ [] →
  (Forall (λ x, x < 2)%nat a →
   ∃ idx, resolve_deleted pset (d_ndarray a) = inr idx
          ∧ idx ≠ a
          ∧ ∀ i, i ∈ idx ↔ a !! i = Some 1%nat)
  ∧ (Exists (λ x, 2 ≤ x)%nat a → resolve_deleted pset (d_ndarray a) = inr a).
Proof.
  intros Hne. split.
  - intros Ha. eexists. split_and!.
    + simpl. rewrite (proj2 (forallb_forall _ a)); [done|].
      intros x Hx%list_elem_of_In. eapply Forall_forall in Ha; [|done].
      by apply Nat.ltb_lt.
    + destruct a as [|x a]; [done|]. unfold np_where. simpl.
      destruct x as [|x]; simpl.
      * intros Heq.
        assert (0%nat ∈ np_where_from (λ x, negb (x =? 0)%nat) 1 a) as Hin
          by (rewrite Heq; apply elem_of_cons; by left).
        apply elem_of_np_where_from in Hin as [Hle _]. lia.
      * by intros [=].
    + intros i. rewrite elem_of_np_where. split.
      * intros (x & Hx & Hnz). rewrite Hx. f_equal.
        apply list_elem_of_lookup_2 in Hx as Hin.
        eapply Forall_forall in Ha; [|done]. simpl in Ha.
        destruct x as [|[|x]]; [done|done|lia].
      * intros Hi. by exists 1%nat.
  - intros Hex. simpl.
    destruct (forallb _ a) eqn:Hall; [|done].
    rewrite forallb_forall in Hall. apply Exists_exists in Hex as (x & Hx & Hge).
    apply list_elem_of_In, Hall, Nat.ltb_lt in Hx. lia.
Qed.

(** ** The once-written flags *)

Lemma put_idx_length {A} (a : list A) (idx : list nat) (vals : list A) :
  length (put_idx a idx vals) = length a.
Proof.
  revert a vals. induction idx as [|i idx IH]; intros a vals; [done|].
  destruct vals as [|v vals]; [done|]. simpl. by rewrite IH, length_insert.
Qed.

Lemma put_idx_replicate_lookup {A} (a : list A) (idx : list nat) (c : A) (j : nat) :
  put_idx a idx (replicate (length idx) c) !! j
  = if bool_decide (j ∈ idx ∧ j < length a)%nat then Some c else a !! j.
Proof.
  revert a. induction idx as [|i idx IH]; intros a.
  - cbn [put_idx length replicate].
    case_bool_decide as Hin; [|done]. by destruct Hin as [?%elem_of_nil _].
  - cbn [put_idx length replicate]. rewrite IH, length_insert.
    destruct (decide (i = j)) as [->|Hne].
    + destruct (decide (j < length a)%nat) as [Hlt|Hge].
      * rewrite list_lookup_insert_eq by done.
        rewrite (bool_decide_eq_true_2 (j ∈ j :: idx ∧ _)); [by case_bool_decide|].
        split; [by apply elem_of_cons; left|done].
      * rewrite list_insert_ge by lia.
        rewrite !bool_decide_eq_false_2; [done|intros [_ ?]; lia|intros [_ ?]; lia].
    + rewrite list_lookup_insert_ne by done.
      repeat case_bool_decide; try done; exfalso; set_solver.
Qed.

(** The collection after [emit]: as before, or with the flags set at the
    selected indices whose flag was zero. *)
Lemma emit_pset self pset fs idx :
  r_pset (emit self pset fs idx) = pset
  ∨ ∃ flags idx_once,
      getvardata pset "once_written" idx = Some flags
      ∧ take_idx idx (np_where (λ v, v =? 0) flags) = Some idx_once
      ∧ r_pset (emit self pset fs idx)
        = setvardata pset "once_written" idx_once (replicate (length idx_once) 1).
Proof.
  unfold emit.
  destruct (getvardata pset "id" idx) as [pids|] eqn:Hpids; [|by left].
  cbv zeta.
  destruct (mapM _ pids) as [ids|]; [|by left].
  destruct (getvardata pset "once_written" idx) as [flags|] eqn:Hflags; [|by left].
  destruct (take_idx ids _) as [ids_once|] eqn:Hids_once; [|by left].
  destruct (take_idx idx _) as [idx_once|] eqn:Hidx_once; [|by left].
  assert (length ids_once = length idx_once) as ->.
  { apply take_idx_length in Hids_once, Hidx_once. congruence. }
  right. exists flags, idx_once. split_and!; [done..|].
  unfold raise. by repeat case_match.
Qed.

(** The indices whose flag [emit] sets are the selected ones with a zero
    flag. *)
Lemma once_indices (col flags : list Z) (idx idx_once : list nat) (j : nat) :
  take_idx col idx = Some flags →
  take_idx idx (np_where (λ v, v =? 0) flags) = Some idx_once →
  j ∈ idx_once ↔ j ∈ idx ∧ col !! j = Some 0.
Proof.
  intros Hflags%take_idx_Some Honce%take_idx_Some. split.
  - intros [m Hm]%list_elem_of_lookup.
    destruct (Forall2_lookup_r _ _ _ _ _ Honce Hm) as (k & Hk & Hkj).
    apply list_elem_of_lookup_2, elem_of_np_where in Hk as (v & Hv & Hzero).
    apply Z.eqb_eq in Hzero as ->.
    destruct (Forall2_lookup_l _ _ _ _ _ Hflags Hkj) as (v & Hv' & Hcol).
    split; [by eapply list_elem_of_lookup_2|]. congruence.
  - intros [[k Hk]%list_elem_of_lookup Hcol].
    destruct (Forall2_lookup_l _ _ _ _ _ Hflags Hk) as (v & Hv & Hcol').
    assert (v = 0) as -> by congruence.
    assert (k ∈ np_where (λ v, v =? 0) flags) as [m Hm]%list_elem_of_lookup
      by (apply elem_of_np_where; by exists 0).
    destruct (Forall2_lookup_l _ _ _ _ _ Honce Hm) as (j' & Hj' & Hkj').
    assert (j' = j) as -> by congruence. by eapply list_elem_of_lookup_2.
Qed.

Lemma emit_flags self pset fs idx (col : list Z) :
  _data pset !! "once_written" = Some col →
  _ncount (r_pset (emit self pset fs idx)) = _ncount pset
  ∧ variables (r_pset (emit self pset fs idx)) = variables pset
  ∧ (∀ var, var ≠ "once_written" →
       _data (r_pset (emit self pset fs idx)) !! var = _data pset !! var)
  ∧ ∃ col',
      _data (r_pset (emit self pset fs idx)) !! "once_written" = Some col'
      ∧ length col' = length col
      ∧ (∀ j v, col !! j = Some v →
           col' !! j = Some v ∨ (v = 0 ∧ j ∈ idx ∧ col' !! j = Some 1))
      ∧ ∀ path df, r_out (emit self pset fs idx) = Written path df →
          ∀ j, j ∈ idx → ∃ v, col' !! j = Some v ∧ v ≠ 0.
Proof.
  intros Hcol.
  destruct (emit_pset self pset fs idx) as [Heq|(flags & idx_once & Hflags & Honce & Heq)].
  - rewrite Heq. split_and!; [done..|]. exists col. split_and!; [done..|by left|].
    intros path df Hout.
    destruct (emit_emit_path self pset fs idx)
      as [| | | |pids ids flags idx_once dfdict nf obs df' fs' Hpids Hids Hflags Honce
                 Hdf Hnf Hobs Hframe Hfs]; try done.
    cbn [r_pset] in Heq. intros j Hj.
    unfold getvardata in Hflags. rewrite Hcol in Hflags. simpl in Hflags.
    assert (_data (setvardata pset "once_written" idx_once
                     (replicate (length idx_once) 1)) !! "once_written" = Some col)
      as Hsame by (by rewrite Heq).
    simpl in Hsame. rewrite lookup_alter_eq, Hcol in Hsame. simpl in Hsame.
    injection Hsame as Hsame.
    apply list_elem_of_lookup in Hj as [k Hk].
    pose proof Hflags as Hflags'. apply take_idx_Some in Hflags'.
    destruct (Forall2_lookup_l _ _ _ _ _ Hflags' Hk) as (v & Hv & Hjv).
    exists v. split; [done|]. intros ->.
    assert (j ∈ idx_once) as Hin.
    { eapply once_indices; [done..|]. split; [by eapply list_elem_of_lookup_2|done]. }
    pose proof (put_idx_replicate_lookup col idx_once 1 j) as Hput.
    rewrite Hsame, bool_decide_eq_true_2 in Hput; [congruence|].
    split; [done|by eapply lookup_lt_Some].
  - rewrite Heq. unfold getvardata in Hflags. rewrite Hcol in Hflags. simpl in Hflags.
    split_and!; [done..| |].
    + intros var Hne. simpl. by rewrite lookup_alter_ne.
    + exists (put_idx col idx_once (replicate (length idx_once) 1)).
      split_and!.
      * simpl. by rewrite lookup_alter_eq, Hcol.
      * apply put_idx_length.
      * intros j v Hj. rewrite put_idx_replicate_lookup.
        case_bool_decide as Hin; [|by left]. destruct Hin as [Hin _].
        eapply once_indices in Hin as [Hin Hzero]; [|done..].
        right. split_and!; [congruence|done..].
      * intros path df _ j Hj. rewrite put_idx_replicate_lookup.
        case_bool_decide as Hin; [by exists 1|].
        apply list_elem_of_lookup in Hj as [k Hk].
        pose proof Hflags as Hflags'. apply take_idx_Some in Hflags'.
        destruct (Forall2_lookup_l _ _ _ _ _ Hflags' Hk) as (v & Hv & Hjv).
        exists v. split; [done|]. intros ->. apply Hin.
        split; [|by eapply lookup_lt_Some].
        eapply once_indices; [done..|]. split; [by eapply list_elem_of_lookup_2|done].
Qed.

(** A chunk comes from [emit] on the indices the call selects, of which
    there is at least one. *)
Lemma write_Written_selected self pset fs time deleted_only path df :
  r_out (write self pset fs time deleted_only) = Written path df →
  ∃ self' idx,
    write self pset fs time deleted_only = emit self' pset fs idx
    ∧ idx ≠ []
    ∧ selected_indices OperationCode_Delete _to_write_particles
        {| c_pset := pset; c_time := time; c_deleted_only := deleted_only |} = Some idx
    ∧ vars_to_write self' = vars_to_write self.
Proof.
  unfold write, write_indices, selected_indices, raise. cbn [c_pset c_time c_deleted_only].
  destruct (gate _ _ _); [|done].
  destruct (_ncount pset =? 0)%nat; [done|].
  destruct (is_not_False deleted_only).
  - destruct (resolve_deleted _ _) as [e|idx]; [done|].
    case_bool_decide as Hlen; [|done]. intros _. exists self, idx.
    split_and!; [done| |done..]. intros ->. simpl in Hlen. lia.
  - case_bool_decide as Hlen; [|done]. intros _. eexists _, _.
    split_and!; [done| |done..]. intros Heq. rewrite Heq in Hlen. simpl in Hlen. lia.
Qed.

(** X10. A call changes nothing of the collection but the once-written
    column, and there only sets flags: a flag that is not zero stays as
    it is, a zero flag stays or becomes 1, and only at a selected index.
    After a call that emits a chunk the flag of every selected particle
    is set. *)
Theorem flags_are_only_set self pset fs time deleted_only (col : list Z) :
  _data pset !! "once_written" = Some col →
  _ncount (r_pset (write self pset fs time deleted_only)) = _ncount pset
  ∧ variables (r_pset (write self pset fs time deleted_only)) = variables pset
  ∧ (∀ var, var ≠ "once_written" →
       _data (r_pset (write self pset fs time deleted_only)) !! var = _data pset !! var)
  ∧ ∃ col',
      _data (r_pset (write self pset fs time deleted_only)) !! "once_written" = Some col'
      ∧ length col' = length col
      ∧ (∀ j v, col !! j = Some v → col' !! j = Some v ∨ (v = 0 ∧ col' !! j = Some 1))
      ∧ ∀ path df idx,
          r_out (write self pset fs time deleted_only) = Written path df →
          selected_indices OperationCode_Delete _to_write_particles
            {| c_pset := pset; c_time := time; c_deleted_only := deleted_only |}
          = Some idx →
          ∀ j, j ∈ idx → ∃ v, col' !! j = Some v ∧ v ≠ 0.
Proof.
  intros Hcol.
  assert (_ncount (r_pset (write self pset fs time deleted_only)) = _ncount pset
    ∧ variables (r_pset (write self pset fs time deleted_only)) = variables pset
    ∧ (∀ var, var ≠ "once_written" →
         _data (r_pset (write self pset fs time deleted_only)) !! var = _data pset !! var)
    ∧ ∃ col',
        _data (r_pset (write self pset fs time deleted_only)) !! "once_written" = Some col'
        ∧ length col' = length col
        ∧ (∀ j v, col !! j = Some v → col' !! j = Some v ∨ (v = 0 ∧ col' !! j = Some 1)))
    as (Hn & Hv & Hother & col' & Hcol' & Hlen & Hkeep).
  { destruct (write_cases self pset fs time deleted_only)
      as [(_ & Hpset & _)|[(_ & Hpset & _)|[[idx Heq]|[idx Heq]]]].
    - rewrite Hpset. split_and!; [done..|]. exists col. split_and!; [done..|by left].
    - rewrite Hpset. split_and!; [done..|]. exists col. split_and!; [done..|by left].
    - rewrite Heq. destruct (emit_flags self pset fs idx col Hcol)
        as (? & ? & ? & col' & ? & ? & Hkeep & _).
      split_and!; [done..|]. exists col'. split_and!; [done..|].
      intros j v Hj. destruct (Hkeep j v Hj) as [?|(? & _ & ?)]; eauto.
    - rewrite Heq.
      destruct (emit_flags (set_lasttime_written self (Some time)) pset fs idx col Hcol)
        as (? & ? & ? & col' & ? & ? & Hkeep & _).
      split_and!; [done..|]. exists col'. split_and!; [done..|].
      intros j v Hj. destruct (Hkeep j v Hj) as [?|(? & _ & ?)]; eauto. }
  split_and!; [done..|]. exists col'. split_and!; [done..|].
  intros path df idx Hw Hsel.
  destruct (write_Written_selected _ _ _ _ _ _ _ Hw)
    as (self' & idx' & Heq & _ & Hsel' & _).
  assert (idx' = idx) as -> by congruence.
  destruct (emit_flags self' pset fs idx col Hcol)
    as (_ & _ & _ & col'' & Hcol'' & _ & _ & Hset).
  rewrite <- Heq in Hcol'', Hset.
  assert (col'' = col') as -> by congruence. by apply (Hset path df).
Qed.

(** X11. A call that emits no chunk - skipped, warned or ended by an
    exception - leaves every observation counter, every registered index
    and the file system as they were, although an exception after line
    250 leaves the new identities registered. *)
Theorem call_without_chunk self pset fs time deleted_only :
  writer_ok self →
  chunk_of (r_out (write self pset fs time deleted_only)) = [] →
  (∀ p, counter (r_self (write self pset fs time deleted_only)) p = counter self p)
  ∧ (∀ p i, pids_written self !! p = Some i →
            pids_written (r_self (write self pset fs time deleted_only)) !! p = Some i)
  ∧ r_fs (write self pset fs time deleted_only) = fs
  ∧ writer_ok (r_self (write self pset fs time deleted_only)).
Proof.
  intros Hok Hout.
  destruct (write_step OperationCode_Delete _to_write_particles self pset fs time
              deleted_only Hok) as [Hok' Hstep].
  pose proof (write_fs self pset fs time deleted_only) as Hfs.
  unfold counters_step in Hstep.
  destruct (r_out _) as [|t|path df|e]; try done;
    (split_and!; [done|intros p i; apply write_keeps|done|done]).
Qed.

(** ** The shape of a chunk *)

Lemma fill_dfdict_names (P : string → Prop) self pset vars idx idx_once acc dfdict :
  fill_dfdict self pset vars idx idx_once acc = Some dfdict →
  (∀ var, var ∈ vars → _convert_varout_name var ≠ "trajectory" →
          P (_convert_varout_name var)) →
  Forall (λ kv, P kv.1) acc →
  Forall (λ kv, P kv.1) dfdict.
Proof.
  revert acc. induction vars as [|var vars IH]; intros acc; simpl.
  - by intros [= <-].
  - intros Hfill Hvars Hacc.
    assert (∀ var', var' ∈ vars → _convert_varout_name var' ≠ "trajectory" →
                    P (_convert_varout_name var')) as Hvars'
      by (intros var' Hin; apply Hvars, elem_of_cons; by right).
    destruct (String.eqb_spec (_convert_varout_name var) "trajectory") as [Htraj|Htraj];
      [by eapply IH|].
    destruct (write_once self var) as [once|]; [|done]. simpl in Hfill.
    destruct (getvardata pset var _) as [col|]; [|done]. simpl in Hfill.
    eapply IH; [done..|].
    apply Forall_forall. intros kv [->|Hin]%elem_of_dict_set.
    + simpl. apply Hvars; [by apply elem_of_cons; left|done].
    + by eapply Forall_forall in Hacc.
Qed.

(** X12. An emitted chunk has one row per selected index, in selection
    order and at least one, labelled with the identity fetched at that
    index; every column has one value per row; the columns are named
    after variables to write (with [depth] as [z]), and none is called
    [trajectory]: the identity is in the row labels only. *)
Theorem chunk_shape self pset fs time deleted_only path df :
  r_out (write self pset fs time deleted_only) = Written path df →
  (∃ idx, selected_indices OperationCode_Delete _to_write_particles
            {| c_pset := pset; c_time := time; c_deleted_only := deleted_only |}
          = Some idx
          ∧ getvardata pset "id" idx = Some (df_index df).*1
          ∧ length (df_index df) = length idx)
  ∧ df_index df ≠ []
  ∧ Forall (λ col, length col.2 = length (df_index df)) (df_columns df)
  ∧ Forall (λ col, col.1 ≠ "trajectory"
                   ∧ ∃ var, var ∈ (vars_to_write self).*1
                            ∧ col.1 = _convert_varout_name var) (df_columns df).
Proof.
  intros Hout.
  destruct (write_Written_selected _ _ _ _ _ _ _ Hout)
    as (self' & idx & Heq & Hne & Hsel & Hvars).
  rewrite Heq in Hout.
  destruct (emit_emit_path self' pset fs idx)
    as [| | | |pids ids flags idx_once dfdict nf obs df' fs' Hpids Hids Hflags Honce Hdf
               Hnf Hobs Hframe Hfs]; try done.
  cbn [r_out] in Hout. injection Hout as _ <-.
  apply pd_DataFrame_Some in Hframe as (Hindex & Hcols & Hlens).
  apply getvardata_length in Hpids as Hlen.
  apply take_idx_length in Hobs. apply mapM_Some, Forall2_length in Hids.
  assert ((df_index df').*1 = pids) as Hfst
    by (rewrite Hindex; apply fst_zip; lia).
  assert (length (df_index df') = length idx) as Hrows
    by (rewrite Hindex, length_zip_with; lia).
  split_and!.
  - exists idx. by rewrite Hfst.
  - intros Hnil. rewrite Hnil in Hrows. by destruct idx.
  - by rewrite Hindex.
  - rewrite Hcols, <- Hvars. apply Forall_fmap.
    apply (fill_dfdict_names
             (λ k, k ≠ "trajectory"
                   ∧ ∃ var, var ∈ (vars_to_write self').*1 ∧ k = _convert_varout_name var)
             _ _ _ _ _ _ _ Hdf); [|done].
    intros var Hin Htraj. split; [done|]. by exists var.
Qed.

(** ** When a chunk does come out *)

Lemma np_where_from_all {A} (cond : A → bool) (a : list A) (k : nat) :
  Forall (λ x, cond x = true) a → np_where_from cond k a = seq k (length a).
Proof.
  intros H. revert k. induction H as [|x a Hx _ IH]; intros k; simpl; [done|].
  by rewrite Hx, IH.
Qed.

Lemma take_idx_seq {A} (a : list A) :
  take_idx a (seq 0 (length a)) = Some a.
Proof.
  apply take_idx_Some. apply Forall2_lookup. intros i.
  destruct (a !! i) as [x|] eqn:Hx.
  - rewrite lookup_seq_lt by (by eapply lookup_lt_Some). by constructor.
  - rewrite lookup_seq_ge by (by apply lookup_ge_None). constructor.
Qed.

Lemma take_idx_is_Some {A} (a : list A) (idx : list nat) :
  is_Some (take_idx a idx) ↔ Forall (λ i, i < length a)%nat idx.
Proof.
  unfold take_idx. rewrite mapM_is_Some. apply Forall_proper; [|done].
  intros i. apply lookup_lt_is_Some.
Qed.

(** Setting flags does not change which fetches succeed. *)
Lemma getvardata_setvardata_is_Some pset var' indices vals var idx :
  is_Some (getvardata pset var idx) →
  is_Some (getvardata (setvardata pset var' indices vals) var idx).
Proof.
  unfold getvardata, setvardata. simpl. rewrite lookup_alter.
  case_decide as Heq; [subst var'|done].
  destruct (_data pset !! var) as [col|]; simpl; [|done].
  rewrite !take_idx_is_Some. by rewrite put_idx_length.
Qed.

Lemma fill_dfdict_is_Some self pset vars idx idx_once acc :
  (∀ var, var ∈ vars → _convert_varout_name var ≠ "trajectory" →
     ∃ once, write_once self var = Some once
             ∧ is_Some (getvardata pset var (if once : bool then idx_once else idx))) →
  is_Some (fill_dfdict self pset vars idx idx_once acc).
Proof.
  revert acc. induction vars as [|var vars IH]; intros acc Hvars; [by eexists|].
  simpl.
  assert (∀ acc', is_Some (fill_dfdict self pset vars idx idx_once acc')) as IH'.
  { intros acc'. apply IH. intros var' Hin. apply Hvars, elem_of_cons. by right. }
  destruct (String.eqb_spec (_convert_varout_name var) "trajectory") as [|Htraj]; [done|].
  destruct (Hvars var) as (once & Honce & [col Hcol]); [by apply elem_of_cons; left|done|].
  rewrite Honce. simpl. rewrite Hcol. simpl. apply IH'.
Qed.

Lemma fill_dfdict_lengths self pset vars idx acc dfdict :
  fill_dfdict self pset vars idx idx acc = Some dfdict →
  Forall (λ kv, length kv.2 = length idx) acc →
  Forall (λ kv, length kv.2 = length idx) dfdict.
Proof.
  revert acc. induction vars as [|var vars IH]; intros acc; simpl.
  - by intros [= <-].
  - intros Hfill Hacc.
    destruct (String.eqb _ "trajectory"); [by eapply IH|].
    destruct (write_once self var) as [once|]; [|done]. simpl in Hfill.
    destruct (getvardata pset var _) as [col|] eqn:Hcol; [|done]. simpl in Hfill.
    eapply IH; [done|].
    apply Forall_forall. intros kv [->|Hin]%elem_of_dict_set.
    + simpl. apply getvardata_length in Hcol. by destruct once.
    + by eapply Forall_forall in Hacc.
Qed.

(** What makes [emit] persist a chunk: the fetches succeed, the flags of
    the selected particles are all zero, [nfiles] is set and the output
    folder is there. *)
Lemma emit_first_time self pset fs idx pids flags nf children :
  writer_ok self →
  getvardata pset "id" idx = Some pids →
  getvardata pset "once_written" idx = Some flags →
  Forall (λ v, v = 0) flags →
  (∀ var, var ∈ (vars_to_write self).*1 → _convert_varout_name var ≠ "trajectory" →
     is_Some (write_once self var) ∧ is_Some (getvardata pset var idx)) →
  nfiles self = Some nf →
  fs !! fname self = Some (Dir children) →
  ∃ df, r_out (emit self pset fs idx) = Written (fname self ++ "/" ++ chunk_file nf) df
        ∧ r_pset (emit self pset fs idx)
          = setvardata pset "once_written" idx (replicate (length idx) 1).
Proof.
  intros Hok Hpids Hflags Hzero Hvars Hnf Hdir.
  pose proof (getvardata_length _ _ _ _ Hpids) as Hlen_pids.
  pose proof (getvardata_length _ _ _ _ Hflags) as Hlen_flags.
  unfold emit. rewrite Hpids. cbv zeta.
  destruct (registered_covers self pids) as [ids Hids].
  change (mapM _ pids) with (mapM (λ p, pids_written (registered self pids) !! p) pids).
  rewrite Hids. rewrite Hflags.
  pose proof Hids as Hlen_ids. apply mapM_Some, Forall2_length in Hlen_ids.
  assert (np_where (λ v, v =? 0) flags = seq 0 (length flags)) as ->.
  { apply np_where_from_all. eapply Forall_impl; [done|]. intros v ->. done. }
  assert (take_idx ids (seq 0 (length flags)) = Some ids) as ->.
  { replace (length flags) with (length ids) by lia. apply take_idx_seq. }
  assert (take_idx idx (seq 0 (length flags)) = Some idx) as ->.
  { rewrite Hlen_flags. apply take_idx_seq. }
  change (set_maxids _ _) with (registered self pids).
  assert (length ids = length idx) as Hlen_idx by lia.
  destruct (fill_dfdict_is_Some (registered self pids)
              (setvardata pset "once_written" idx (replicate (length ids) 1))
              (vars_to_write self).*1 idx idx []) as [dfdict Hdf].
  { intros var Hin Htraj. destruct (Hvars var Hin Htraj) as [[once Honce] Hfetch].
    exists once. split; [done|]. apply getvardata_setvardata_is_Some. by destruct once. }
  cbn [vars_to_write registered set_maxids set_pids_written nfiles] in Hdf |- *.
  rewrite Hdf, Hnf.
  change (set_obs_written (registered self pids) _) with (grown self pids ids nf).
  destruct (proj2 (take_idx_is_Some (obs_written (grown self pids ids nf)) ids))
    as [obs Hobs].
  { eapply Forall_impl; [by apply ids_in_range|]. by intros i [_ ?]. }
  rewrite Hobs.
  apply take_idx_length in Hobs as Hlen_obs.
  assert (pd_DataFrame dfdict (zip pids obs)
          = Some {| df_index := zip pids obs; df_columns := dfdict |}) as ->.
  { apply pd_DataFrame_same_length.
    pose proof (fill_dfdict_lengths _ _ _ _ _ _ Hdf (Forall_nil_2 _)) as Hlens.
    eapply Forall_impl; [done|]. intros kv Hkv. simpl in Hkv.
    rewrite Hkv, length_zip_with. lia. }
  unfold to_parquet. cbn [fname grown registered set_obs_written set_maxids
                         set_pids_written]. rewrite Hdir.
  eexists. split; [reflexivity|]. cbn [r_pset]. by rewrite Hlen_idx.
Qed.

(** X16. A call that passes the guards and selects at least one
    particle, all of them with their flag unset, emits a chunk when the
    columns it fetches are there and in range, [nfiles] is set and the
    output folder exists; afterwards the flag of every selected particle
    is 1. *)
Theorem first_time_batch_is_emitted self pset fs time deleted_only idx pids flags nf
    children :
  writer_ok self →
  gate self time deleted_only = true →
  _ncount pset ≠ 0%nat →
  selected_indices OperationCode_Delete _to_write_particles
    {| c_pset := pset; c_time := time; c_deleted_only := deleted_only |} = Some idx →
  idx ≠ [] →
  getvardata pset "id" idx = Some pids →
  getvardata pset "once_written" idx = Some flags →
  Forall (λ v, v = 0) flags →
  (∀ var, var ∈ (vars_to_write self).*1 → _convert_varout_name var ≠ "trajectory" →
     is_Some (write_once self var) ∧ is_Some (getvardata pset var idx)) →
  nfiles self = Some nf →
  fs !! fname self = Some (Dir children) →
  ∃ df, r_out (write self pset fs time deleted_only)
        = Written (fname self ++ "/" ++ chunk_file nf) df
        ∧ (df_index df).*1 = pids
        ∧ r_pset (write self pset fs time deleted_only)
          = setvardata pset "once_written" idx (replicate (length idx) 1).
Proof.
  intros Hok Hgate Hcount Hsel Hne Hpids Hflags Hzero Hvars Hnf Hdir.
  assert (∃ self', write self pset fs time deleted_only = emit self' pset fs idx
                   ∧ writer_ok self' ∧ vars_to_write self' = vars_to_write self
                   ∧ (∀ var, write_once self' var = write_once self var)
                   ∧ nfiles self' = nfiles self ∧ fname self' = fname self)
    as (self' & Heq & Hok' & Hv & Hw & Hn & Hf).
  { unfold write, write_indices, selected_indices in *.
    cbn [c_pset c_time c_deleted_only] in Hsel. rewrite Hgate.
    destruct (Nat.eqb_spec (_ncount pset) 0) as [|_]; [done|].
    destruct (is_not_False deleted_only).
    - destruct (resolve_deleted _ _) as [e|idx']; [done|]. injection Hsel as ->.
      rewrite bool_decide_eq_true_2 by (destruct idx; [done|simpl; lia]).
      by exists self.
    - injection Hsel as ->.
      rewrite bool_decide_eq_true_2 by (destruct idx; [done|simpl; lia]).
      exists (set_lasttime_written self (Some time)).
      split_and!; try done. by apply writer_ok_set_lasttime_written. }
  destruct (emit_first_time self' pset fs idx pids flags nf children) as (df & Hout & Hpset);
    try done; try congruence.
  { intros var Hin Htraj. rewrite Hw. apply Hvars; [by rewrite <- Hv|done]. }
  rewrite Hf in Hout. exists df. rewrite Heq. split_and!; [done| |done].
  destruct (emit_step self' pset fs idx Hok') as [_ Hstep].
  unfold counters_step in Hstep. rewrite Hout in Hstep.
  destruct Hstep as (Hsel' & _). congruence.
Qed.

(** ** The attributes of the variables *)

Lemma add_var_attrs_other reserved vars attrs (k : string) :
  k ∈ reserved ∨ k ∉ vars.*1 →
  dict_get k (add_var_attrs reserved vars attrs) = dict_get k attrs.
Proof.
  revert attrs. induction vars as [|[vname t] vars IH]; intros attrs Hk; [done|].
  simpl. rewrite IH.
  - case_bool_decide as Hres; [done|]. apply dict_get_dict_set_ne.
    intros ->. destruct Hk as [?|Hk]; [done|]. apply Hk. simpl. apply elem_of_cons. by left.
  - destruct Hk as [?|Hk]; [by left|]. right. intros Hin. apply Hk.
    simpl. apply elem_of_cons. by right.
Qed.

Lemma add_var_attrs_var reserved vars attrs (vname : string) (t : DType) :
  NoDup vars.*1 → (vname, t) ∈ vars → vname ∉ reserved →
  dict_get vname (add_var_attrs reserved vars attrs)
  = Some [("_FillValue", a_fill (fill_value_map t)); ("long_name", a_str "");
          ("standard_name", a_str vname); ("units", a_str "unknown")].
Proof.
  revert attrs. induction vars as [|[vname' t'] vars IH]; intros attrs Hnd Hin Hres.
  - by apply elem_of_nil in Hin.
  - simpl in Hnd. apply NoDup_cons in Hnd as [Hfresh Hnd].
    apply elem_of_cons in Hin as [[= <- <-]|Hin]; simpl.
    + rewrite add_var_attrs_other by (by right).
      rewrite bool_decide_eq_false_2 by done. apply dict_get_dict_set.
    + by apply IH.
Qed.

End Extra.

Section ExtraAttributes.

Variable _reserved_var_names : list string.
Variable calendar : option string.
Variable time_origin_str : string.

#[local] Abbreviation attribute_dict :=
  (_create_variables_attribute_dict _reserved_var_names calendar time_origin_str).

(** X13. Each variable to write that is not reserved gets an attribute
    entry of its own: the fill value of its dtype, an empty long name,
    its name as standard name and unknown units.  (The names of
    [vars_to_write], the keys of a dict, are distinct.) *)
Theorem attributes_of_variable self (vname : string) (t : DType) :
  NoDup (vars_to_write self).*1 →
  (vname, t) ∈ vars_to_write self →
  vname ∉ _reserved_var_names →
  dict_get vname (attribute_dict self)
  = Some [("_FillValue", a_fill (fill_value_map t)); ("long_name", a_str "");
          ("standard_name", a_str vname); ("units", a_str "unknown")].
Proof. intros Hnd Hin Hres. by apply add_var_attrs_var. Qed.

(** X14. The entry of the time variable, when [time] is reserved or not
    a variable to write: without calendar the units are seconds; with one
    they are seconds since the time origin and the calendar is what
    [_set_calendar] returns, [standard] for [np_datetime64].  The
    trajectory entry carries the fill value of int64 in the same way. *)
Theorem attributes_of_time self :
  "time" ∈ _reserved_var_names ∨ "time" ∉ (vars_to_write self).*1 →
  "trajectory" ∈ _reserved_var_names ∨ "trajectory" ∉ (vars_to_write self).*1 →
  dict_get "time" (attribute_dict self)
  = Some (match calendar with
          | Some cal =>
              [("long_name", a_str ""); ("standard_name", a_str "time");
               ("units", a_str ("seconds since " ++ time_origin_str));
               ("axis", a_str "T"); ("calendar", a_str (_set_calendar cal))]
          | None =>
              [("long_name", a_str ""); ("standard_name", a_str "time");
               ("units", a_str "seconds"); ("axis", a_str "T")]
          end)
  ∧ dict_get "trajectory" (attribute_dict self)
    = Some [("long_name", a_str "Unique identifier for each particle");
            ("cf_role", a_str "trajectory_id");
            ("_FillValue", a_fill (IntFill (2 ^ 63 - 1)))].
Proof.
  intros Htime Htraj. unfold _create_variables_attribute_dict.
  rewrite !add_var_attrs_other by done. split; [|done].
  by destruct calendar.
Qed.

End ExtraAttributes.

(** X15. The constructor changes nothing of the collection but the
    once-written column, which it fills with zeros, whether it goes on to
    raise or not. *)
Theorem init_touches_flags_only MPI fs target particleset wo :
  _ncount (i_pset (__init__ MPI fs target particleset wo)) = _ncount particleset
  ∧ variables (i_pset (__init__ MPI fs target particleset wo)) = variables particleset
  ∧ (∀ var, var ≠ "once_written" →
       _data (i_pset (__init__ MPI fs target particleset wo)) !! var
       = _data particleset !! var)
  ∧ _data (i_pset (__init__ MPI fs target particleset wo)) !! "once_written"
    = (λ col, replicate (length col) 0) <$> _data particleset !! "once_written".
Proof.
  assert (i_pset (__init__ MPI fs target particleset wo)
          = setallvardata particleset "once_written" 0) as ->.
  { unfold __init__. by repeat case_match. }
  split_and!; [done..| |]; simpl.
  - intros var Hne. by rewrite lookup_alter_ne.
  - by rewrite lookup_alter_eq.
Qed.

(** ** The further properties at work on the simulation *)

Lemma scenario_writer_ok : writer_ok Scenario.writer.
Proof.
  exact (init_writer_ok None Scenario.fs_old "out.parquet" Scenario.pset false
           Scenario.writer eq_refl).
Qed.

Lemma written_chunk_stored_witness :
  ∃ nf children children',
    nfiles Scenario.writer = Some nf
    ∧ i_fs Scenario.init !! fname Scenario.writer = Some (Dir children)
    ∧ "out.parquet/p000.parquet" = fname Scenario.writer ++ "/" ++ chunk_file nf
    ∧ nfiles (r_self Scenario.first) = Some (S nf)
    ∧ r_fs Scenario.first !! fname Scenario.writer = Some (Dir children')
    ∧ dict_get (chunk_file nf) children'
      = Some {| df_index := [(1, 0%nat); (2, 0%nat)];
                df_columns := [("lon", [10; 20]); ("age0", [7; 8])] |}
    ∧ (∀ file, file ≠ chunk_file nf → dict_get file children' = dict_get file children)
    ∧ ∀ other, other ≠ fname Scenario.writer →
        r_fs Scenario.first !! other = i_fs Scenario.init !! other.
Proof.
  exact (written_chunk_stored Scenario.Delete Scenario.due_all Scenario.writer
           (i_pset Scenario.init) (i_fs Scenario.init) 0 d_False
           "out.parquet/p000.parquet"
           {| df_index := [(1, 0%nat); (2, 0%nat)];
              df_columns := [("lon", [10; 20]); ("age0", [7; 8])] |} eq_refl).
Defined.

Lemma folder_holds_emitted_chunks_witness :
  let fs := i_fs Scenario.init_plain in
  (Scenario.run Scenario.writer_plain fs Scenario.calls).1.2 !! "out.parquet"
  = Some (Dir (chunk_files (Scenario.run Scenario.writer_plain fs Scenario.calls).2))
  ∧ nfiles (Scenario.run Scenario.writer_plain fs Scenario.calls).1.1
    = Some (length (Scenario.run Scenario.writer_plain fs Scenario.calls).2).
Proof.
  exact (folder_holds_emitted_chunks Scenario.Delete Scenario.due_all None
           Scenario.fs_old "out.parquet" Scenario.pset_plain false Scenario.writer_plain
           Scenario.calls eq_refl I).
Defined.

Lemma mpi_mode_never_emits_witness :
  ∃ self,
    i_self (__init__ (Some (3, 4)%nat) Scenario.fs_old "out.parquet" Scenario.pset false)
    = inr self
    ∧ fname self = "out.parquet/proc03.parquet"
    ∧ nfiles self = None
    ∧ (Scenario.run self Scenario.fs_old Scenario.calls).2 = [].
Proof.
  destruct (mpi_mode_never_emits Scenario.Delete Scenario.due_all 3 4 Scenario.fs_old
              "out.parquet" Scenario.pset false Scenario.calls)
    as (self & Hself & Hname & Hnf & _ & Hrun & _).
  - lia.
  - reflexivity.
  - exists self. split; [exact Hself|]. split; [exact Hname|]. split; [exact Hnf|exact Hrun].
Defined.

Lemma init_rejects_extension_witness :
  i_self (__init__ None Scenario.fs_old "out.nc" Scenario.pset false) = inl RuntimeError
  ∧ i_fs (__init__ None Scenario.fs_old "out.nc" Scenario.pset false) = Scenario.fs_old
  ∧ i_pset (__init__ None Scenario.fs_old "out.nc" Scenario.pset false)
    = setallvardata Scenario.pset "once_written" 0.
Proof.
  apply (init_rejects_extension None Scenario.fs_old "out.nc" Scenario.pset false).
  left. reflexivity.
Defined.

Lemma vars_to_write_of_schema_witness :
  NoDup (vars_to_write Scenario.writer).*1
  ∧ ptype Scenario.writer = variables Scenario.pset
  ∧ dict_get "age0" (vars_to_write Scenario.writer)
    = dtype <$> last (filter (λ v, name v = "age0" ∧ truthy (to_write v) = true)
                             (variables Scenario.pset)).
Proof.
  exact (vars_to_write_of_schema None Scenario.fs_old "out.parquet" Scenario.pset false
           Scenario.writer "age0" eq_refl).
Defined.

Lemma ondelete_without_subset_is_noop_witness :
  Scenario.run Scenario.writer_ondelete Scenario.fs_old
    [ {| c_pset := Scenario.pset_deleted; c_time := 0; c_deleted_only := d_False |};
      {| c_pset := Scenario.pset_deleted; c_time := 1; c_deleted_only := d_False |} ]
  = (Scenario.writer_ondelete, Scenario.fs_old, []).
Proof.
  apply (ondelete_without_subset_is_noop Scenario.Delete Scenario.due_all).
  - reflexivity.
  - repeat constructor.
Defined.

Lemma empty_selection_witness :
  Scenario.write Scenario.writer_plain Scenario.pset_plain Scenario.fs_old 0 d_True
  = {| r_self := Scenario.writer_plain; r_pset := Scenario.pset_plain;
       r_fs := Scenario.fs_old; r_out := Skipped |}
  ∧ r_out (write Scenario.Delete (λ _ _, []) Scenario.writer_plain Scenario.pset_plain
             Scenario.fs_old 0 d_False) = Skipped.
Proof.
  split.
  - apply (empty_selection Scenario.Delete Scenario.due_all Scenario.writer_plain
             Scenario.pset_plain Scenario.pset3 Scenario.fs_old 0 d_True);
      [reflexivity|vm_compute; discriminate|reflexivity].
  - destruct (empty_selection Scenario.Delete (λ _ _, []) Scenario.writer_plain
                Scenario.pset_plain Scenario.pset3 Scenario.fs_old 0 d_False)
      as [_ Hperiodic]; [reflexivity|vm_compute; discriminate|].
    destruct (Hperiodic eq_refl eq_refl) as [Heq _]. rewrite Heq. reflexivity.
Defined.

Lemma scalar_deleted_only_raises_witness :
  Scenario.write Scenario.writer_plain Scenario.pset_plain Scenario.fs_old 0 (d_scalar 0)
  = {| r_self := Scenario.writer_plain; r_pset := Scenario.pset_plain;
       r_fs := Scenario.fs_old; r_out := Raised UnboundLocalError |}.
Proof.
  apply (scalar_deleted_only_raises Scenario.Delete Scenario.due_all);
    [lia|discriminate|vm_compute; discriminate].
Defined.

Lemma ndarray_of_zeros_and_ones_is_a_mask_witness :
  ∃ idx, resolve_deleted Scenario.Delete Scenario.pset_plain (d_ndarray [1%nat]) = inr idx
         ∧ idx ≠ [1%nat].
Proof.
  destruct (ndarray_of_zeros_and_ones_is_a_mask Scenario.Delete Scenario.pset_plain
              [1%nat]) as [Hmask _]; [discriminate|].
  destruct Hmask as (idx & Hidx & Hne & _); [repeat constructor|].
  exists idx. split; [exact Hidx|exact Hne].
Defined.

Lemma flags_are_only_set_witness :
  ∃ col', _data (r_pset Scenario.first) !! "once_written" = Some col'
          ∧ length col' = 2%nat
          ∧ ∀ j, j ∈ [0; 1]%nat → ∃ v, col' !! j = Some v ∧ v ≠ 0.
Proof.
  destruct (flags_are_only_set Scenario.Delete Scenario.due_all Scenario.writer
              (i_pset Scenario.init) (i_fs Scenario.init) 0 d_False [0; 0] eq_refl)
    as (_ & _ & _ & col' & Hcol' & Hlen & _ & Hset).
  exists col'. split; [exact Hcol'|]. split; [exact Hlen|].
  exact (Hset "out.parquet/p000.parquet"
           {| df_index := [(1, 0%nat); (2, 0%nat)];
              df_columns := [("lon", [10; 20]); ("age0", [7; 8])] |}
           [0; 1]%nat eq_refl eq_refl).
Defined.

Lemma call_without_chunk_witness :
  (∀ p, counter (r_self Scenario.second) p = counter (r_self Scenario.first) p)
  ∧ r_fs Scenario.second = r_fs Scenario.first.
Proof.
  destruct (call_without_chunk Scenario.Delete Scenario.due_all (r_self Scenario.first)
              (r_pset Scenario.first) (r_fs Scenario.first) 1 d_False)
    as (Hcount & _ & Hfs & _).
  - exact (proj1 (write_step Scenario.Delete Scenario.due_all Scenario.writer
                    (i_pset Scenario.init) (i_fs Scenario.init) 0 d_False
                    scenario_writer_ok)).
  - reflexivity.
  - split; [exact Hcount|exact Hfs].
Defined.

Lemma chunk_shape_witness :
  df_index
    {| df_index := [(1, 0%nat); (2, 0%nat)];
       df_columns := [("lon", [10; 20]); ("age0", [7; 8])] |} ≠ []
  ∧ Forall (λ col, length col.2 = 2%nat) [("lon", [10; 20]); ("age0", [7; 8])].
Proof.
  destruct (chunk_shape Scenario.Delete Scenario.due_all Scenario.writer
              (i_pset Scenario.init) (i_fs Scenario.init) 0 d_False
              "out.parquet/p000.parquet"
              {| df_index := [(1, 0%nat); (2, 0%nat)];
                 df_columns := [("lon", [10; 20]); ("age0", [7; 8])] |} eq_refl)
    as (_ & Hrows & Hcols & _).
  split; [exact Hrows|exact Hcols].
Defined.

Lemma attributes_of_variable_witness :
  dict_get "lon"
    (_create_variables_attribute_dict ["time"] None "" Scenario.writer)
  = Some [("_FillValue", a_fill nan); ("long_name", a_str "");
          ("standard_name", a_str "lon"); ("units", a_str "unknown")].
Proof.
  apply (attributes_of_variable ["time"] None "" Scenario.writer "lon" float32).
  - apply (bool_decide_unpack _). vm_compute. exact I.
  - apply elem_of_cons. right. apply elem_of_cons. left. reflexivity.
  - apply (bool_decide_unpack _). vm_compute. exact I.
Defined.

Lemma attributes_of_time_witness :
  dict_get "time"
    (_create_variables_attribute_dict ["time"] (Some "np_datetime64") "2000-01-01"
       Scenario.writer)
  = Some [("long_name", a_str ""); ("standard_name", a_str "time");
          ("units", a_str "seconds since 2000-01-01");
          ("axis", a_str "T"); ("calendar", a_str "standard")].
Proof.
  destruct (attributes_of_time ["time"] (Some "np_datetime64") "2000-01-01"
              Scenario.writer) as [Htime _].
  - left. apply (bool_decide_unpack _). vm_compute. exact I.
  - right. apply (bool_decide_unpack _). vm_compute. exact I.
  - exact Htime.
Defined.

Lemma init_touches_flags_only_witness :
  _data (i_pset Scenario.init) !! "lon" = _data Scenario.pset !! "lon"
  ∧ _data (i_pset Scenario.init) !! "once_written" = Some [0; 0].
Proof.
  destruct (init_touches_flags_only None Scenario.fs_old "out.parquet" Scenario.pset false)
    as (_ & _ & Hother & Hflags).
  split; [apply Hother; discriminate|exact Hflags].
Defined.

Lemma first_time_batch_is_emitted_witness :
  ∃ df, r_out (Scenario.write Scenario.writer (i_pset Scenario.init)
                 (i_fs Scenario.init) 0 d_False)
        = Written ("out.parquet" ++ "/" ++ chunk_file 0) df
        ∧ (df_index df).*1 = [1; 2].
Proof.
  destruct (first_time_batch_is_emitted Scenario.Delete Scenario.due_all Scenario.writer
              (i_pset Scenario.init) (i_fs Scenario.init) 0 d_False [0; 1]%nat [1; 2]
              [0; 0] 0%nat []) as (df & Hout & Hrows & _).
  - exact scenario_writer_ok.
  - reflexivity.
  - vm_compute. discriminate.
  - reflexivity.
  - discriminate.
  - reflexivity.
  - reflexivity.
  - repeat constructor.
  - intros var Hin _.
    apply elem_of_cons in Hin as [->|Hin]; [split; eexists; reflexivity|].
    apply elem_of_cons in Hin as [->|Hin]; [split; eexists; reflexivity|].
    apply elem_of_cons in Hin as [->|Hin]; [split; eexists; reflexivity|].
    by apply elem_of_nil in Hin.
  - reflexivity.
  - reflexivity.
  - exists df. split; [exact Hout|exact Hrows].
Defined.
